(** * Round-up accumulation pipeline of coffee-change

    A shallow embedding of the round-up pipeline:
    - [src/lib/services/roundup-calculator.ts] ([RoundupCalculator]),
    - [src/lib/services/helius-service.ts] ([parseTransaction],
      [fetchOutgoingTransactions]),
    - [src/lib/services/baseline-tracker.ts] ([BaselineTracker]),
    - the routes [POST /api/roundups/track] and [POST /api/wallet/init].

    JavaScript numbers are modelled as their exact rational values ([Q]);
    every arithmetic operation the code performs on numbers is followed by
    [round64], rounding to the nearest binary64 value (ties to even), as
    IEEE 754 prescribes.  Infinities, NaN and the sign of zero are not
    modelled. *)

From Stdlib Require Import ZArith QArith Qround Qminmax Qabs List String Bool Lia.
From Stdlib Require Import Permutation Sorting.Sorted Lqa.
Import ListNotations.

Open Scope Z_scope.

(* ------------------------------------------------------------------ *)
(** ** Binary64 arithmetic *)

Module Binary64.

(** [num/den] scaled by [2^-e], as a numerator/denominator pair. *)
Definition scale (num den e : Z) : Z * Z :=
  if Z.leb 0 e then (num, den * 2 ^ e) else (num * 2 ^ (- e), den).

(** Nearest integer to [num/den] ([den > 0]), ties to even. *)
Definition rne_div (num den : Z) : Z :=
  let f := num / den in
  let r := num mod den in
  match Z.compare (2 * r) den with
  | Lt => f
  | Gt => f + 1
  | Eq => if Z.even f then f else f + 1
  end.

(** Exponent of the unit in the last place of the binade of [num/den]
    ([num, den > 0]): the [e] with [2^52 <= num/den * 2^-e < 2^53],
    clamped at the subnormal exponent [-1074]. *)
Definition ulp_exp (num den : Z) : Z :=
  let e0 := Z.log2 num - Z.log2 den - 52 in
  let '(a, b) := scale num den e0 in
  let e1 := if Z.leb (2 ^ 52) (a / b) then e0 else e0 - 1 in
  Z.max (-1074) e1.

(** [m * 2^e] as a rational. *)
Definition of_scaled (m e : Z) : Q :=
  if Z.leb 0 e then inject_Z (m * 2 ^ e) else Qmake m (Z.to_pos (2 ^ (- e))).

(** Rounding of [num/den] at a given exponent. *)
Definition round_at (e num den : Z) : Q :=
  let '(a, b) := scale num den e in of_scaled (rne_div a b) e.

Definition round_pos (num den : Z) : Q := round_at (ulp_exp num den) num den.

(** Round to the nearest binary64 value (ties to even). *)
Definition round64 (q : Q) : Q :=
  let n := Qnum q in
  let d := Zpos (Qden q) in
  match Z.compare n 0 with
  | Eq => 0%Q
  | Gt => round_pos n d
  | Lt => Qopp (round_pos (- n) d)
  end.

(** JS [x - y], [x + y], [x * y], [x / y] on numbers. *)
Definition fsub (x y : Q) : Q := round64 (x - y)%Q.
Definition fadd (x y : Q) : Q := round64 (x + y)%Q.
Definition fmul (x y : Q) : Q := round64 (x * y)%Q.
Definition fdiv (x y : Q) : Q := round64 (x / y)%Q.

(** A numeric literal: the binary64 value nearest to the decimal. *)
Definition lit (n : Z) (d : positive) : Q := round64 (Qmake n d).

(** [parseFloat(x.toFixed(2))]: [n] is the integer nearest to [100 x]
    (the larger one on a tie, for [x >= 0]; symmetric for [x < 0]), and
    [parseFloat] returns the binary64 value nearest to [n / 100]. *)
Definition toFixed2 (x : Q) : Q :=
  let y := (Qabs x * 100)%Q in
  let n := Qfloor (y + (1 # 2))%Q in
  let n' := if Qle_bool 0 x then n else - n in
  round64 (Qmake n' 100).

End Binary64.

Import Binary64.

(* ------------------------------------------------------------------ *)
(** ** [RoundupCalculator.calculateRoundup] *)

(** [const rounded = Math.ceil(usdValue);
     const roundup = rounded - usdValue;
     return Math.max(0, roundup);] *)
Definition calculateRoundup (usdValue : Q) : Q :=
  let rounded := inject_Z (Qceiling usdValue) in
  let roundup := fsub rounded usdValue in
  Qmax 0%Q roundup.

(* ------------------------------------------------------------------ *)
(** ** Data model *)

Open Scope string_scope.

(** Truthiness of an optional JS string ([undefined], [null] and [""] are
    falsy). *)
Definition truthy (o : option string) : bool :=
  match o with
  | Some s => negb (String.eqb s "")
  | None => false
  end.

(** [HeliusTransaction] (the fields the pipeline reads); an absent
    [nativeTransfers] / [tokenTransfers] array is the empty list. *)
Record NativeTransfer := {
  nt_fromUserAccount : string;
  nt_toUserAccount : string;
  nt_amount : Q
}.

Record TokenTransfer := {
  tt_fromUserAccount : string;
  tt_toUserAccount : string;
  tt_tokenAmount : Q;
  tt_mint : string
}.

Record HeliusTransaction := {
  signature : string;
  timestamp : Z;
  slot : Z;
  fee : Q;
  nativeTransfers : list NativeTransfer;
  tokenTransfers : list TokenTransfer
}.

Inductive TxType := sent | received | unknown.

Definition TxType_eqb (a b : TxType) : bool :=
  match a, b with
  | sent, sent | received, received | unknown, unknown => true
  | _, _ => false
  end.

Record ParsedHeliusTransaction := {
  p_signature : string;
  p_timestamp : Z;
  p_slot : Z;
  p_fee : Q;
  p_type : TxType;
  amount : Q;
  token : string;
  tokenMint : option string;
  tokenDecimals : Z;
  fromAddress : string;
  toAddress : string
}.

(** Rows of the [wallet_tracking] table. *)
Record WalletTracking := {
  wallet_address : string;
  last_tracked_tx : option string;
  last_tracked_at : option Z
}.

(** [RoundupCalculation]; [transaction_date] is kept as the transfer's
    timestamp, which the ISO string written by the code encodes. *)
Record RoundupCalculation := {
  c_transaction_id : string;
  c_transaction_date : Z;
  c_token : string;
  c_token_mint : option string;
  c_token_amount : Q;
  c_usd_value : Q;
  c_round_up_value : Q;
  c_price_source : string
}.

(** Rows of the [roundup_records] table. *)
Record RoundupRecord := {
  r_wallet_address : string;
  transaction_id : string;
  transaction_date : Z;
  r_token : string;
  token_mint : option string;
  token_amount : Q;
  usd_value : Q;
  round_up_value : Q;
  price_source : string
}.

(** The persisted state: both tables. *)
Record DB := {
  wallet_tracking : list WalletTracking;
  roundup_records : list RoundupRecord
}.

(** Observable effects: calls to the transfer source and writes. *)
Inductive Event :=
  | EvFetch (address : string) (before : option string)
  | EvInsertRoundup (transaction_id : string)
  | EvWriteTracking (address : string) (tx : string).

Inductive Exn :=
  | PersistenceError
  | HeliusError
  | OutOfFuel.

(** The collaborators outside the pipeline.
    - [sol_price], [token_price]: what [PriceOracle.getCurrentSolPrice] and
      [getCurrentTokenPrice] return (they return price 0 on failure);
    - [helius address before]: the page returned by the Helius enhanced
      transactions endpoint, newest first, or [None] when the call fails;
    - [insert_fails id]: inserting the entry of transfer [id] into
      [roundup_records] hits a persistence error other than a duplicate key;
    - [read_fails]: selecting from [roundup_records] fails;
    - [now]: the clock. *)
Record Env := {
  sol_price : Q;
  token_price : string -> Q;
  helius : string -> option string -> option (list HeliusTransaction);
  insert_fails : string -> bool;
  read_fails : bool;
  now : Z
}.

(* ------------------------------------------------------------------ *)
(** ** State and exception monad *)

Definition St : Type := (DB * list Event)%type.

Definition M (A : Type) : Type := St -> ((Exn + A) * St)%type.

Definition ret {A} (a : A) : M A := fun s => (inr a, s).
Definition bind {A B} (m : M A) (k : A -> M B) : M B :=
  fun s => match m s with
           | (inl e, s') => (inl e, s')
           | (inr a, s') => k a s'
           end.
Definition throw {A} (e : Exn) : M A := fun s => (inl e, s).
(** [try { m } catch (e) { h(e) }]: the state reached by [m] is kept. *)
Definition catch {A} (m : M A) (h : Exn -> M A) : M A :=
  fun s => match m s with
           | (inl e, s') => h e s'
           | (inr a, s') => (inr a, s')
           end.
Definition get_db : M DB := fun s => (inr (fst s), s).
Definition put_db (d : DB) : M unit := fun s => (inr tt, (d, snd s)).
Definition emit (ev : Event) : M unit :=
  fun s => (inr tt, (fst s, (snd s ++ [ev])%list)).

Notation "x <- m ;; k" := (bind m (fun x => k))
  (at level 61, m at next level, right associativity).
Notation "m ;;; k" := (bind m (fun _ => k))
  (at level 61, right associativity).

(** Running an operation: its outcome, final database and effects. *)
Definition run {A} (m : M A) (d : DB) : (Exn + A) * St := m (d, []).

Section Pipeline.

Variable env : Env.

(* ------------------------------------------------------------------ *)
(** ** [RoundupCalculator] *)

(** [getTokenPrice(token, tokenMint)]. *)
Definition getTokenPrice (token : string) (tokenMint : option string) : Q :=
  if String.eqb token "SOL" then sol_price env
  else if String.eqb token "USDC" || String.eqb token "USDT" then 1%Q
  else if truthy tokenMint then
    match tokenMint with Some m => token_price env m | None => 0%Q end
  else 0%Q.

(** [processTransaction(transaction)]: [None] is the code's [null]. *)
Definition processTransaction (transaction : ParsedHeliusTransaction)
  : option RoundupCalculation :=
  let tokenPrice := getTokenPrice (token transaction) (tokenMint transaction) in
  if Qeq_bool tokenPrice 0 then None
  else
    let usdValue := fmul (amount transaction) tokenPrice in
    let roundUpValue := calculateRoundup usdValue in
    Some {| c_transaction_id := p_signature transaction;
            c_transaction_date := p_timestamp transaction;
            c_token := token transaction;
            c_token_mint := tokenMint transaction;
            c_token_amount := amount transaction;
            c_usd_value := toFixed2 usdValue;
            c_round_up_value := toFixed2 roundUpValue;
            c_price_source := "coingecko" |}.

Definition row_of (walletAddress : string) (c : RoundupCalculation) : RoundupRecord :=
  {| r_wallet_address := walletAddress;
     transaction_id := c_transaction_id c;
     transaction_date := c_transaction_date c;
     r_token := c_token c;
     token_mint := c_token_mint c;
     token_amount := c_token_amount c;
     usd_value := c_usd_value c;
     round_up_value := c_round_up_value c;
     price_source := c_price_source c |}.

Definition has_transaction (id : string) (rows : list RoundupRecord) : bool :=
  existsb (fun r => String.eqb (transaction_id r) id) rows.

(** Modelled from the spec: the uniqueness constraint on
    [roundup_records.transaction_id] (the table schema is not under
    [src/]).  [inl false] is the duplicate-key error [23505], [inl true]
    any other persistence error, [inr] the inserted row. *)
Definition insert_roundup_row (row : RoundupRecord) (d : DB)
  : bool + (RoundupRecord * DB) :=
  if insert_fails env (transaction_id row) then inl true
  else if has_transaction (transaction_id row) (roundup_records d) then inl false
  else inr (row, {| wallet_tracking := wallet_tracking d;
                    roundup_records := (roundup_records d ++ [row])%list |}).

(** [storeRoundup(walletAddress, calculation)]. *)
Definition storeRoundup (walletAddress : string) (calculation : RoundupCalculation)
  : M (option RoundupRecord) :=
  emit (EvInsertRoundup (c_transaction_id calculation)) ;;;
  d <- get_db ;;
  match insert_roundup_row (row_of walletAddress calculation) d with
  | inl false => ret None
  | inl true => throw PersistenceError
  | inr (data, d') => put_db d' ;;; ret (Some data)
  end.

Record ProcessResult := {
  res_stored : nat;
  res_skipped : nat;
  res_total : nat
}.

(** The [for ... of] loop of [processAndStoreTransactions], with its
    per-transaction [try/catch]. *)
Fixpoint process_loop (walletAddress : string)
    (transactions : list ParsedHeliusTransaction) (stored skipped : nat)
  : M (nat * nat) :=
  match transactions with
  | [] => ret (stored, skipped)
  | transaction :: rest =>
      counts <- catch
        (match processTransaction transaction with
         | None => ret (stored, S skipped)
         | Some calculation =>
             record <- storeRoundup walletAddress calculation ;;
             match record with
             | Some _ => ret (S stored, skipped)
             | None => ret (stored, S skipped)
             end
         end)
        (fun _ => ret (stored, S skipped)) ;;
      process_loop walletAddress rest (fst counts) (snd counts)
  end.

(** [processAndStoreTransactions(walletAddress, transactions)]. *)
Definition processAndStoreTransactions (walletAddress : string)
    (transactions : list ParsedHeliusTransaction) : M ProcessResult :=
  counts <- process_loop walletAddress transactions 0 0 ;;
  ret {| res_stored := fst counts; res_skipped := snd counts;
         res_total := List.length transactions |}.

(** [.order('transaction_date', { ascending: false })]: a stable sort,
    newest first. *)
Fixpoint insert_desc (r : RoundupRecord) (l : list RoundupRecord) : list RoundupRecord :=
  match l with
  | [] => [r]
  | h :: t => if Z.ltb (transaction_date h) (transaction_date r) then r :: h :: t
              else h :: insert_desc r t
  end.

Definition sort_desc (l : list RoundupRecord) : list RoundupRecord :=
  fold_left (fun acc r => insert_desc r acc) l [].

Definition records_of (walletAddress : string) (d : DB) : list RoundupRecord :=
  filter (fun r => String.eqb (r_wallet_address r) walletAddress) (roundup_records d).

(** [getRoundups(walletAddress, limit)]. *)
Definition getRoundups (walletAddress : string) (limit : nat) : M (list RoundupRecord) :=
  if read_fails env then throw PersistenceError
  else d <- get_db ;; ret (firstn limit (sort_desc (records_of walletAddress d))).

(** [records.reduce((sum, record) => sum + parseFloat(...), 0)]. *)
Definition sum_roundups (records : list RoundupRecord) : Q :=
  fold_left (fun sum record => fadd sum (round_up_value record)) records 0%Q.

(** [getTotalRoundup(walletAddress)]. *)
Definition getTotalRoundup (walletAddress : string) : M Q :=
  catch (records <- getRoundups walletAddress 1000 ;;
         ret (toFixed2 (sum_roundups records)))
        (fun _ => ret 0%Q).

(** [isReadyForInvestment(walletAddress)]. *)
Definition isReadyForInvestment (walletAddress : string) : M bool :=
  catch (total <- getTotalRoundup walletAddress ;; ret (Qle_bool 1 total))
        (fun _ => ret false).

(* ------------------------------------------------------------------ *)
(** ** [BaselineTracker] *)

(** [getWalletTracking(walletAddress)]: [.single()] on the row keyed by
    the address. *)
Definition getWalletTracking (walletAddress : string) : M (option WalletTracking) :=
  d <- get_db ;;
  ret (find (fun t => String.eqb (wallet_address t) walletAddress) (wallet_tracking d)).

Definition update_tracking (walletAddress tx : string) (d : DB) : DB :=
  {| wallet_tracking :=
       map (fun t => if String.eqb (wallet_address t) walletAddress
                     then {| wallet_address := wallet_address t;
                             last_tracked_tx := Some tx;
                             last_tracked_at := Some (now env) |}
                     else t) (wallet_tracking d);
     roundup_records := roundup_records d |}.

(** [setBaseline(walletAddress, transactionSignature)]. *)
Definition setBaseline (walletAddress transactionSignature : string) : M WalletTracking :=
  existing <- getWalletTracking walletAddress ;;
  emit (EvWriteTracking walletAddress transactionSignature) ;;;
  d <- get_db ;;
  let row := {| wallet_address := walletAddress;
                last_tracked_tx := Some transactionSignature;
                last_tracked_at := Some (now env) |} in
  match existing with
  | Some _ => put_db (update_tracking walletAddress transactionSignature d) ;;; ret row
  | None => put_db {| wallet_tracking := (wallet_tracking d ++ [row])%list;
                      roundup_records := roundup_records d |} ;;; ret row
  end.

(** [updateLastTracked(walletAddress, transactionSignature)]. *)
Definition updateLastTracked (walletAddress transactionSignature : string) : M unit :=
  emit (EvWriteTracking walletAddress transactionSignature) ;;;
  d <- get_db ;;
  put_db (update_tracking walletAddress transactionSignature d).

End Pipeline.

(* ------------------------------------------------------------------ *)
(** ** [HeliusService] *)

Definition USDC_MINT_MAINNET := "EPjFWdd5AufqSSqeM2qN1xzybapC8G4wEGGkZwyTDt1v".
Definition USDC_MINT_DEVNET := "4zMMC9srt5Ri5X14GAgXhaHii3GnPAEERYPJgZJDncDU".
Definition USDT_MINT := "Es9vMFrzaCERmJfrF4H2FYD4KCoNkY11McCe8BenwNYB".

(** [type] as the code assigns it from a transfer's two accounts:
    the [if (from === wallet) ... else if (to === wallet) ...] chain,
    [prev] being the value it had before. *)
Definition classify (from to walletAddress : string) (prev : TxType) : TxType :=
  if String.eqb from walletAddress then sent
  else if String.eqb to walletAddress then received
  else prev.

(** [parseTransaction(tx, walletAddress)]: the native transfer [0] is read
    first, then the token transfer [0] overrides what it sets. *)
Definition parseTransaction (tx : HeliusTransaction) (walletAddress : string)
  : option ParsedHeliusTransaction :=
  let '(type1, amount1, from1, to1) :=
    match nativeTransfers tx with
    | transfer :: _ =>
        (classify (nt_fromUserAccount transfer) (nt_toUserAccount transfer)
                  walletAddress unknown,
         fdiv (nt_amount transfer) (inject_Z 1000000000),
         nt_fromUserAccount transfer, nt_toUserAccount transfer)
    | [] => (unknown, 0%Q, "", "")
    end in
  let '(type2, amount2, token2, mint2, decimals2, from2, to2) :=
    match tokenTransfers tx with
    | transfer :: _ =>
        let tokenMint := tt_mint transfer in
        let '(token, tokenDecimals) :=
          if String.eqb tokenMint USDC_MINT_MAINNET
             || String.eqb tokenMint USDC_MINT_DEVNET then ("USDC", 6)
          else if String.eqb tokenMint USDT_MINT then ("USDT", 6)
          else ("SOL", 9) in
        (classify (tt_fromUserAccount transfer) (tt_toUserAccount transfer)
                  walletAddress type1,
         tt_tokenAmount transfer, token, Some tokenMint, tokenDecimals,
         tt_fromUserAccount transfer, tt_toUserAccount transfer)
    | [] => (type1, amount1, "SOL", None, 9, from1, to1)
    end in
  match type2 with
  | sent =>
      Some {| p_signature := signature tx;
              p_timestamp := timestamp tx;
              p_slot := slot tx;
              p_fee := fdiv (fee tx) (inject_Z 1000000000);
              p_type := type2;
              amount := amount2;
              token := token2;
              tokenMint := mint2;
              tokenDecimals := decimals2;
              fromAddress := from2;
              toAddress := to2 |}
  | _ => None
  end.

(** [afterSignature && tx.signature === afterSignature]. *)
Definition matches_baseline (afterSignature : option string) (sig : string) : bool :=
  match afterSignature with
  | Some s => truthy afterSignature && String.eqb sig s
  | None => false
  end.

(** The inner [for (const tx of transactions)] loop of
    [fetchOutgoingTransactions]: the collected transfers and
    [foundBaseline] when it ends. *)
Fixpoint scan_page (address : string) (afterSignature : option string)
    (transactions : list HeliusTransaction) (foundBaseline : bool)
    (allTransactions : list ParsedHeliusTransaction)
  : list ParsedHeliusTransaction * bool :=
  match transactions with
  | [] => (allTransactions, foundBaseline)
  | tx :: rest =>
      if matches_baseline afterSignature (signature tx)
      then (allTransactions, true)
      else
        let allTransactions' :=
          if foundBaseline then allTransactions
          else match parseTransaction tx address with
               | Some parsed =>
                   if TxType_eqb (p_type parsed) sent
                   then (allTransactions ++ [parsed])%list
                   else allTransactions
               | None => allTransactions
               end in
        scan_page address afterSignature rest foundBaseline allTransactions'
  end.

Definition last_signature (transactions : list HeliusTransaction) : option string :=
  match rev transactions with
  | tx :: _ => Some (signature tx)
  | [] => None
  end.

Section Service.

Variable env : Env.

(** [fetchTransactions(address, limit, before)]: the endpoint is called
    with [before] when it is truthy, and its page is cut to [limit]. *)
Definition fetchTransactions (address : string) (limit : nat) (before : option string)
  : M (list HeliusTransaction) :=
  let before' := if truthy before then before else None in
  emit (EvFetch address before') ;;;
  match helius env address before' with
  | None => throw HeliusError
  | Some transactions => ret (firstn limit transactions)
  end.

(** [getMostRecentTransaction(address)]. *)
Definition getMostRecentTransaction (address : string) : M (option HeliusTransaction) :=
  catch (transactions <- fetchTransactions address 1 None ;;
         ret (hd_error transactions))
        (fun _ => ret None).

(** The [while (allTransactions.length < limit)] loop of
    [fetchOutgoingTransactions].  The loop is run for at most [fuel]
    pages; a run needing more ends in [OutOfFuel]. *)
Fixpoint fetch_loop (fuel : nat) (address : string) (limit : nat)
    (afterSignature : option string) (allTransactions : list ParsedHeliusTransaction)
    (currentBefore : option string) (foundBaseline : bool)
  : M (list ParsedHeliusTransaction) :=
  match fuel with
  | O => throw OutOfFuel
  | S fuel' =>
      if Nat.ltb (List.length allTransactions) limit then
        transactions <- fetchTransactions address
                          (Nat.min 100 (limit - List.length allTransactions))
                          currentBefore ;;
        match transactions with
        | [] => ret allTransactions
        | _ =>
            let '(allTransactions', foundBaseline') :=
              scan_page address afterSignature transactions foundBaseline
                        allTransactions in
            if foundBaseline' then ret allTransactions'
            else
              let currentBefore' := last_signature transactions in
              if negb (truthy currentBefore') then ret allTransactions'
              else fetch_loop fuel' address limit afterSignature
                     allTransactions' currentBefore' foundBaseline'
        end
      else ret allTransactions
  end.

(** [fetchOutgoingTransactions(address, limit, afterSignature)]:
    [let foundBaseline = !afterSignature]. *)
Definition fetchOutgoingTransactions (fuel : nat) (address : string) (limit : nat)
    (afterSignature : option string) : M (list ParsedHeliusTransaction) :=
  fetch_loop fuel address limit afterSignature [] None (negb (truthy afterSignature)).

End Service.

(* ------------------------------------------------------------------ *)
(** ** Routes *)

(** Responses of [POST /api/roundups/track]. [isReady] is absent from the
    response when no new transfer was found. *)
Inductive TrackResponse :=
  | TrackOk (processed stored skipped : nat) (totalRoundup : Q)
            (newBaseline : string) (isReady : option bool)
  | TrackInvalidAddress
  | TrackNotInitialized
  | TrackError (e : Exn).

(** Responses of [POST /api/wallet/init]. *)
Inductive InitResponse :=
  | InitOk (address : string) (last_tracked : option string) (isNewWallet : bool)
  | InitInvalidAddress
  | InitInvalidAddressFormat
  | InitHeliusFailed
  | InitNoTransactions
  | InitError (e : Exn).

(** [!tracking || !tracking.last_tracked_tx] is false: the baseline. *)
Definition baseline_of (tracking : option WalletTracking) : option string :=
  match tracking with
  | Some t => if truthy (last_tracked_tx t) then last_tracked_tx t else None
  | None => None
  end.

Section Routes.

Variable env : Env.

(** [POST /api/roundups/track] with body [{ address, limit, ignoreBaseline }];
    [address = None] is a missing or non-string address. *)
Definition POST_track (fuel : nat) (address : option string) (limit : nat)
    (ignoreBaseline : bool) : M TrackResponse :=
  catch
    (match address with
     | Some a =>
       if negb (truthy address) then ret TrackInvalidAddress
       else
         tracking <- getWalletTracking a ;;
         match baseline_of tracking with
         | None => ret TrackNotInitialized
         | Some last_tracked =>
             let baselineSignature := if ignoreBaseline then None else Some last_tracked in
             newTransactions <- fetchOutgoingTransactions env fuel a limit baselineSignature ;;
             match newTransactions with
             | [] =>
                 totalRoundup <- getTotalRoundup env a ;;
                 ret (TrackOk 0 0 0 totalRoundup last_tracked None)
             | mostRecentTx :: _ =>
                 result <- processAndStoreTransactions env a newTransactions ;;
                 updateLastTracked env a (p_signature mostRecentTx) ;;;
                 totalRoundup <- getTotalRoundup env a ;;
                 ret (TrackOk (res_total result) (res_stored result) (res_skipped result)
                              totalRoundup (p_signature mostRecentTx)
                              (Some (Qle_bool 1 totalRoundup)))
             end
         end
     | None => ret TrackInvalidAddress
     end)
    (fun e => ret (TrackError e)).

(** [POST /api/wallet/init] with body [{ address }]. *)
Definition POST_init (address : option string) : M InitResponse :=
  catch
    (match address with
     | Some a =>
       if negb (truthy address) then ret InitInvalidAddress
       else if Nat.ltb (String.length a) 32 || Nat.ltb 44 (String.length a)
       then ret InitInvalidAddressFormat
       else
         existingTracking <- getWalletTracking a ;;
         match baseline_of existingTracking, existingTracking with
         | Some _, Some t =>
             ret (InitOk (wallet_address t) (last_tracked_tx t) false)
         | _, _ =>
             mostRecent <- catch (tx <- getMostRecentTransaction env a ;; ret (inr tx))
                                 (fun e => ret (inl e)) ;;
             match mostRecent with
             | inl _ => ret InitHeliusFailed
             | inr None => ret InitNoTransactions
             | inr (Some mostRecentTx) =>
                 tracking <- setBaseline env a (signature mostRecentTx) ;;
                 ret (InitOk (wallet_address tracking) (last_tracked_tx tracking)
                             (match existingTracking with Some _ => false | None => true end))
             end
         end
     | None => ret InitInvalidAddress
     end)
    (fun e => ret (InitError e)).

End Routes.

(* ------------------------------------------------------------------ *)
(** ** Ledger observations *)

(** Number of stored entries for transfer [id]. *)
Definition count_tx (id : string) (d : DB) : nat :=
  List.length (filter (fun r => String.eqb (transaction_id r) id) (roundup_records d)).

(** A transfer whose asset has no price (the [tokenPrice === 0] branch of
    [processTransaction]). *)
Definition unpriced (env : Env) (p : ParsedHeliusTransaction) : bool :=
  Qeq_bool (getTokenPrice env (token p) (tokenMint p)) 0.

(** The baseline stored for a wallet. *)
Definition stored_baseline (walletAddress : string) (d : DB) : option string :=
  match find (fun t => String.eqb (wallet_address t) walletAddress) (wallet_tracking d) with
  | Some t => last_tracked_tx t
  | None => None
  end.

(** A Helius feed answering from a full history (newest first): the page
    [before] a signature is what follows its first occurrence, cut to
    [page_size] transactions. *)
Fixpoint after_sig (s : string) (hist : list HeliusTransaction) : list HeliusTransaction :=
  match hist with
  | [] => []
  | tx :: rest => if String.eqb (signature tx) s then rest else after_sig s rest
  end.

Definition feed_source (hist : list HeliusTransaction) (before : option string)
  : list HeliusTransaction :=
  match before with
  | Some s => after_sig s hist
  | None => hist
  end.

Definition feed_of (page_size : nat) (hist : list HeliusTransaction)
  : string -> option string -> option (list HeliusTransaction) :=
  fun _ before => Some (firstn page_size (feed_source hist before)).

(* ------------------------------------------------------------------ *)
(** ** Sample inputs *)

Definition W := "WaLLet1111111111111111111111111111111111".
Definition OTHER := "0ther11111111111111111111111111111111111".
Definition SOL_MINT := "So11111111111111111111111111111111111111112".
Definition UNKNOWN_MINT := "UnknownMint111111111111111111111111111111".

Definition empty_db : DB := {| wallet_tracking := []; roundup_records := [] |}.

(** Collaborators answering from a fixed transfer feed; [token_price] is
    0 (unavailable) for every mint. *)
Definition sample_env (feed : string -> option string -> option (list HeliusTransaction)) : Env :=
  {| sol_price := lit 150 1;
     token_price := fun _ => 0%Q;
     helius := feed;
     insert_fails := fun _ => false;
     read_fails := false;
     now := 1700000000 |}.

Definition no_feed : string -> option string -> option (list HeliusTransaction) :=
  fun _ _ => Some [].

Definition sample_calc (id : string) (v : Q) : RoundupCalculation :=
  {| c_transaction_id := id; c_transaction_date := 1700000000;
     c_token := "USDC"; c_token_mint := Some USDC_MINT_MAINNET;
     c_token_amount := v; c_usd_value := v; c_round_up_value := v;
     c_price_source := "coingecko" |}.

(** A USDC transfer of [amt] from [from] to [to]. *)
Definition usdc_tx (sig : string) (ts : Z) (from to : string) (amt : Q) : HeliusTransaction :=
  {| signature := sig; timestamp := ts; slot := ts; fee := lit 5000 1;
     nativeTransfers := [];
     tokenTransfers := [{| tt_fromUserAccount := from; tt_toUserAccount := to;
                           tt_tokenAmount := amt; tt_mint := USDC_MINT_MAINNET |}] |}.

(** A native SOL transfer of [lamports] from [from] to [to]. *)
Definition sol_tx (sig : string) (ts : Z) (from to : string) (lamports : Z) : HeliusTransaction :=
  {| signature := sig; timestamp := ts; slot := ts; fee := lit 5000 1;
     nativeTransfers := [{| nt_fromUserAccount := from; nt_toUserAccount := to;
                            nt_amount := inject_Z lamports |}];
     tokenTransfers := [] |}.

(** Three new outgoing transfers after the baseline [T0]; the middle one
    is in SOL, whose price is unavailable. *)
Definition hist3 : list HeliusTransaction :=
  [usdc_tx "T3" 1700000300 W OTHER (lit 2280 100);
   sol_tx "T2" 1700000200 W OTHER 59000000;
   usdc_tx "T1" 1700000100 W OTHER (lit 885 100);
   usdc_tx "T0" 1700000000 OTHER W (lit 5 1)].

Definition env3 : Env :=
  {| sol_price := 0%Q;
     token_price := fun _ => 0%Q;
     helius := feed_of 100 hist3;
     insert_fails := fun _ => false;
     read_fails := false;
     now := 1700000400 |}.

Definition db3 : DB :=
  {| wallet_tracking := [{| wallet_address := W; last_tracked_tx := Some "T0";
                            last_tracked_at := Some 1700000000 |}];
     roundup_records := [] |}.

Definition batch3 : list ParsedHeliusTransaction := Eval vm_compute in
  match fst (fetchOutgoingTransactions env3 10 W 100 (Some "T0") (db3, [])) with
  | inr l => l
  | inl _ => []
  end.

Definition state3 : St := Eval vm_compute in
  snd (fetchOutgoingTransactions env3 10 W 100 (Some "T0") (db3, [])).

(** A wallet with a tracking row whose baseline is [null]. *)
Definition db_unset : DB :=
  {| wallet_tracking := [{| wallet_address := W; last_tracked_tx := None;
                            last_tracked_at := None |}];
     roundup_records := [] |}.

(** The transactions of a feed that come before (are newer than) the
    first one with signature [base]. *)
Fixpoint newer_than (base : string) (hist : list HeliusTransaction) : list HeliusTransaction :=
  match hist with
  | [] => []
  | tx :: rest => if String.eqb (signature tx) base then [] else tx :: newer_than base rest
  end.

(** The wallet sends the first token transfer or the first native
    transfer of the transaction. *)
Definition sends_first_transfer (tx : HeliusTransaction) (walletAddress : string) : Prop :=
  match tokenTransfers tx with
  | t :: _ => tt_fromUserAccount t = walletAddress
  | [] => False
  end \/
  match nativeTransfers tx with
  | n :: _ => nt_fromUserAccount n = walletAddress
  | [] => False
  end.

(** A self-transfer of 1 SOL made after the baseline [B0]. *)
Definition histS : list HeliusTransaction :=
  [sol_tx "S1" 1700000100 W W 1000000000;
   usdc_tx "B0" 1700000000 OTHER W (lit 5 1)].

(** The run of [fetchOutgoingTransactions] on [histS] since [B0], and the
    transfers it returns. *)
Definition runS : (Exn + list ParsedHeliusTransaction) * St := Eval vm_compute in
  fetchOutgoingTransactions (sample_env (feed_of 100 histS)) 10 W 100 (Some "B0") (empty_db, []).

Definition outS : list ParsedHeliusTransaction := Eval vm_compute in
  match fst runS with inr l => l | inl _ => [] end.

(** Decimal digits of a natural number. *)
Fixpoint digits (fuel n : nat) : string :=
  match fuel with
  | O => ""
  | S f =>
      if Nat.ltb n 10 then String (Ascii.ascii_of_nat (48 + n)) ""
      else digits f (Nat.div n 10) ++ String (Ascii.ascii_of_nat (48 + Nat.modulo n 10)) ""
  end.

(** A round-up entry of wallet [W] for transfer [id], dated [date], of
    value [v]. *)
Definition entry (id : string) (date : Z) (v : Q) : RoundupRecord :=
  {| r_wallet_address := W; transaction_id := id; transaction_date := date;
     r_token := "USDC"; token_mint := Some USDC_MINT_MAINNET;
     token_amount := v; usd_value := v; round_up_value := v;
     price_source := "coingecko" |}.

Definition ledger (rows : list RoundupRecord) : DB :=
  {| wallet_tracking := []; roundup_records := rows |}.

(** Entries 0.65 and 0.35 (summing to 1.00). *)
Definition db_100 : DB := ledger [entry "A1" 1700000000 (lit 65 100); entry "A2" 1700000100 (lit 35 100)].

(** Entries 0.50 and 0.49 (summing to 0.99). *)
Definition db_099 : DB := ledger [entry "A1" 1700000000 (lit 50 100); entry "A2" 1700000100 (lit 49 100)].

(** Two old entries of 0.50, then 1000 newer entries of 0.00. *)
Definition db_big : DB :=
  ledger ([entry "OLD1" 1000 (lit 50 100); entry "OLD2" 1001 (lit 50 100)] ++
          map (fun k => entry ("N" ++ digits 5 k) (2000 + Z.of_nat k) 0%Q) (seq 0 1000))%list.

(** Collaborators whose reads of [roundup_records] fail. *)
Definition failing_env : Env :=
  {| sol_price := lit 150 1;
     token_price := fun _ => 0%Q;
     helius := no_feed;
     insert_fails := fun _ => false;
     read_fails := true;
     now := 1700000000 |}.

(** The spec's well-formed Solana address: base58 characters only (the
    code's comment says so too, but only the length is checked). *)
Definition base58_alphabet : string :=
  "123456789ABCDEFGHJKLMNPQRSTUVWXYZabcdefghijkmnopqrstuvwxyz".

Fixpoint has_char (c : Ascii.ascii) (s : string) : bool :=
  match s with
  | EmptyString => false
  | String c' r => Ascii.eqb c c' || has_char c r
  end.

Fixpoint is_base58 (s : string) : bool :=
  match s with
  | EmptyString => true
  | String c r => has_char c base58_alphabet && is_base58 r
  end.

(** 32 characters [0], a character outside the base58 alphabet. *)
Definition ZEROS : string := "00000000000000000000000000000000".

(** [env3] with SOL priced at 150 and a persistence error on inserting
    the entry of [T2]. *)
Definition env9 : Env :=
  {| sol_price := lit 150 1;
     token_price := fun _ => 0%Q;
     helius := feed_of 100 hist3;
     insert_fails := fun id => String.eqb id "T2";
     read_fails := false;
     now := 1700000400 |}.

(* ------------------------------------------------------------------ *)
(** ** More of [BaselineTracker] *)

(** [getBaseline(walletAddress)]: [tracking?.last_tracked_tx || null],
    and [null] on an error. *)
Definition getBaseline (walletAddress : string) : M (option string) :=
  catch (tracking <- getWalletTracking walletAddress ;;
         ret (match tracking with
              | Some t => if truthy (last_tracked_tx t) then last_tracked_tx t else None
              | None => None
              end))
        (fun _ => ret None).

(** [isWalletInitialized(walletAddress)]:
    [tracking !== null && tracking.last_tracked_tx !== null], and [false]
    on an error. *)
Definition isWalletInitialized (walletAddress : string) : M bool :=
  catch (tracking <- getWalletTracking walletAddress ;;
         ret (match tracking with
              | Some t => match last_tracked_tx t with Some _ => true | None => false end
              | None => false
              end))
        (fun _ => ret false).

(** [deleteWalletTracking(walletAddress)]: [.delete().eq('wallet_address', ...)]
    on [wallet_tracking]. *)
Definition deleteWalletTracking (walletAddress : string) : M unit :=
  d <- get_db ;;
  put_db {| wallet_tracking :=
              filter (fun t => negb (String.eqb (wallet_address t) walletAddress))
                     (wallet_tracking d);
            roundup_records := roundup_records d |}.

(* ------------------------------------------------------------------ *)
(** ** The GET routes *)

(** Responses of [GET /api/roundups/track]. *)
Inductive RecordsResponse :=
  | RecordsOk (records : list RoundupRecord) (totalRoundup : Q) (count : nat)
              (isReady : bool)
  | RecordsMissingAddress
  | RecordsError (e : Exn).

(** [GET /api/roundups/track?address=...&limit=...]; [limit] is the value
    [parseInt] gives, taken here to be a non-negative integer. *)
Definition GET_track (env : Env) (address : option string) (limit : nat)
  : M RecordsResponse :=
  catch
    (match address with
     | Some a =>
       if negb (truthy address) then ret RecordsMissingAddress
       else
         records <- getRoundups env a limit ;;
         totalRoundup <- getTotalRoundup env a ;;
         isReady <- isReadyForInvestment env a ;;
         ret (RecordsOk records totalRoundup (List.length records) isReady)
     | None => ret RecordsMissingAddress
     end)
    (fun e => ret (RecordsError e)).

(** Responses of [GET /api/wallet/init]. *)
Inductive InitStatus :=
  | StatusOk (address : string) (last_tracked : option string) (isInitialized : bool)
  | StatusMissingAddress
  | StatusNotInitialized
  | StatusError (e : Exn).

(** [GET /api/wallet/init?address=...]. *)
Definition GET_init (address : option string) : M InitStatus :=
  catch
    (match address with
     | Some a =>
       if negb (truthy address) then ret StatusMissingAddress
       else
         tracking <- getWalletTracking a ;;
         match tracking with
         | None => ret StatusNotInitialized
         | Some t => ret (StatusOk (wallet_address t) (last_tracked_tx t)
                                   (truthy (last_tracked_tx t)))
         end
     | None => ret StatusMissingAddress
     end)
    (fun e => ret (StatusError e)).

(* ------------------------------------------------------------------ *)
(** ** [getHeliusService] and its network *)

Inductive Network := mainnet | devnet.

(** JS [s || fallback] on an optional string. *)
Definition js_or (s : option string) (fallback : string) : string :=
  match s with
  | Some v => if truthy s then v else fallback
  | None => fallback
  end.

Definition Network_eqb (n m : Network) : bool :=
  match n, m with
  | mainnet, mainnet | devnet, devnet => true
  | _, _ => false
  end.

(** [getCurrentNetwork()]; [cluster_env] is
    [process.env.NEXT_PUBLIC_SOLANA_CLUSTER]. *)
Definition getCurrentNetwork (cluster_env : option string) : Network :=
  let cluster := js_or cluster_env "mainnet" in
  if String.eqb cluster "mainnet-beta" || String.eqb cluster "mainnet" then mainnet
  else devnet.

(** A [HeliusService] object; [svc_id] tells apart the objects built. *)
Record HeliusService := {
  svc_id : nat;
  apiKey : string;
  network : Network
}.

(** [new HeliusService(apiKey, network)]: [apiKey || HELIUS_API_KEY || '']. *)
Definition newHeliusService (id : nat) (apiKey_arg HELIUS_API_KEY : option string)
    (network : Network) : HeliusService :=
  {| svc_id := id;
     apiKey := js_or apiKey_arg (js_or HELIUS_API_KEY "");
     network := network |}.

(** [getBaseUrl()]. *)
Definition getBaseUrl (svc : HeliusService) : string :=
  "https://api" ++ (match network svc with devnet => "-devnet" | mainnet => "" end)
  ++ ".helius-rpc.com".

(** The module-level [heliusInstance] and [currentNetworkCache], and the
    number of objects built so far. *)
Record ServiceCache := {
  heliusInstance : option HeliusService;
  currentNetworkCache : option Network;
  instances_built : nat
}.

(** [getHeliusService(network)]. *)
Definition getHeliusService (cluster_env HELIUS_API_KEY : option string)
    (network_arg : option Network) (c : ServiceCache) : HeliusService * ServiceCache :=
  let targetNetwork := match network_arg with
                       | Some n => n
                       | None => getCurrentNetwork cluster_env
                       end in
  let rebuild :=
    let inst := newHeliusService (instances_built c) HELIUS_API_KEY HELIUS_API_KEY
                                 targetNetwork in
    (inst, {| heliusInstance := Some inst; currentNetworkCache := Some targetNetwork;
              instances_built := S (instances_built c) |}) in
  match heliusInstance c, currentNetworkCache c with
  | Some inst, Some cached => if Network_eqb cached targetNetwork then (inst, c) else rebuild
  | _, _ => rebuild
  end.

(** A cache whose instance, if any, talks to the cached network. *)
Definition cache_ok (c : ServiceCache) : bool :=
  match heliusInstance c, currentNetworkCache c with
  | Some inst, Some n => Network_eqb (network inst) n
  | _, _ => true
  end.

(** [.order('transaction_date', { ascending: false })] as a relation:
    [r1] may come before [r2]. *)
Definition date_desc (r1 r2 : RoundupRecord) : Prop :=
  (transaction_date r2 <= transaction_date r1)%Z.

(** Further sample inputs. *)
Definition THIRD := "Third11111111111111111111111111111111111".

(** The wallet sends SOL in the native leg while the token leg moves USDC
    between two other accounts. *)
Definition mixed_tx : HeliusTransaction :=
  {| signature := "M1"; timestamp := 1700000500; slot := 1700000500; fee := lit 5000 1;
     nativeTransfers := [{| nt_fromUserAccount := W; nt_toUserAccount := OTHER;
                            nt_amount := inject_Z 1000000 |}];
     tokenTransfers := [{| tt_fromUserAccount := OTHER; tt_toUserAccount := THIRD;
                           tt_tokenAmount := lit 40 1; tt_mint := USDC_MINT_MAINNET |}] |}.

(** A transfer of 5 units of a token the code does not know. *)
Definition unknown_tx : HeliusTransaction :=
  {| signature := "K1"; timestamp := 1700000600; slot := 1700000600; fee := lit 5000 1;
     nativeTransfers := [];
     tokenTransfers := [{| tt_fromUserAccount := W; tt_toUserAccount := OTHER;
                           tt_tokenAmount := lit 5 1; tt_mint := UNKNOWN_MINT |}] |}.

Definition parsed_or (tx : HeliusTransaction) (default : ParsedHeliusTransaction)
  : ParsedHeliusTransaction :=
  match parseTransaction tx W with Some p => p | None => default end.

(** The transfer [T1] of [hist3] as [parseTransaction] returns it. *)
Definition parsed_T1 : ParsedHeliusTransaction :=
  {| p_signature := "T1"; p_timestamp := 1700000100; p_slot := 1700000100;
     p_fee := fdiv (lit 5000 1) (inject_Z 1000000000); p_type := sent;
     amount := lit 885 100; token := "USDC"; tokenMint := Some USDC_MINT_MAINNET;
     tokenDecimals := 6; fromAddress := W; toAddress := OTHER |}.

Definition parsed_unknown : ParsedHeliusTransaction := Eval vm_compute in
  parsed_or unknown_tx parsed_T1.

Definition parsed_mixed : ParsedHeliusTransaction := Eval vm_compute in
  parsed_or mixed_tx parsed_T1.

Definition parsed_native : ParsedHeliusTransaction := Eval vm_compute in
  parsed_or (sol_tx "N1" 1700000700 W OTHER 2500000000) parsed_T1.

Definition calc_T1 : RoundupCalculation := Eval vm_compute in
  match processTransaction (sample_env no_feed) parsed_T1 with
  | Some c => c
  | None => sample_calc "T1" 0
  end.

(** [fetchOutgoingTransactions] on [hist3] since [T0] with [limit = 2]. *)
Definition runL : (Exn + list ParsedHeliusTransaction) * St := Eval vm_compute in
  fetchOutgoingTransactions env3 10 W 2 (Some "T0") (db3, []).

Definition outL : list ParsedHeliusTransaction := Eval vm_compute in
  match fst runL with inr l => l | inl _ => [] end.

(** [POST /api/wallet/init] of [W] on an empty database, the feed being
    [histS]. *)
Definition init_run : (Exn + InitResponse) * St := Eval vm_compute in
  run (POST_init (sample_env (feed_of 100 histS)) (Some W)) empty_db.

Definition empty_cache : ServiceCache :=
  {| heliusInstance := None; currentNetworkCache := None; instances_built := 0 |}.

(* ================================================================== *)
(** * Properties *)

Open Scope Z_scope.

(** ** Rounding to binary64 never goes past [1] from below *)

Lemma rne_div_le (num den K : Z) :
  0 < den -> 0 <= num -> num <= K * den -> rne_div num den <= K.
Proof.
  intros Hden Hnum HK. unfold rne_div.
  pose proof (Z.div_mod num den ltac:(lia)) as Hdm.
  pose proof (Z.mod_pos_bound num den Hden) as Hr.
  assert (Hf : num / den <= K) by (apply Z.div_le_upper_bound; nia).
  destruct (Z.eq_dec (num / den) K) as [Heq | Hne].
  - assert (Hr0 : num mod den = 0) by nia.
    rewrite Hr0.
    destruct (Z.compare_spec (2 * 0) den); [lia | lia | lia].
  - destruct (Z.compare_spec (2 * (num mod den)) den);
      [destruct (Z.even (num / den)) | |]; lia.
Qed.

Lemma rne_div_half (num den : Z) :
  0 < den -> 0 <= num -> 2 * num <= den -> rne_div num den = 0.
Proof.
  intros Hden Hnum Hhalf. unfold rne_div.
  rewrite (Z.div_small num den), (Z.mod_small num den) by lia.
  destruct (Z.compare (2 * num) den) eqn:Hc; try reflexivity.
  apply Z.compare_gt_iff in Hc. lia.
Qed.

Lemma round_at_le_1 (e num den : Z) :
  0 < den -> 0 <= num <= den -> (round_at e num den <= 1)%Q.
Proof.
  intros Hden Hnum. unfold round_at, scale, of_scaled.
  destruct (Z.leb_spec 0 e) as [He | He].
  - assert (Hp : 0 < 2 ^ e) by (apply Z.pow_pos_nonneg; lia).
    destruct (Z.eq_dec e 0) as [-> | He0].
    + change (2 ^ 0) with 1. rewrite !Z.mul_1_r. simpl Z.leb. cbv iota.
      assert (Hle : rne_div num den <= 1) by (apply rne_div_le; lia).
      unfold Qle, inject_Z; simpl Qnum; simpl Qden. lia.
    + assert (H2 : 2 <= 2 ^ e).
      { replace 2 with (2 ^ 1) at 1 by reflexivity.
        apply Z.pow_le_mono_r; lia. }
      rewrite rne_div_half by nia. simpl.
      unfold Qle; simpl. lia.
  - assert (Hp : 0 < 2 ^ (- e)) by (apply Z.pow_pos_nonneg; lia).
    replace (Z.leb 0 e) with false by (symmetry; apply Z.leb_gt; lia).
    assert (Hle : rne_div (num * 2 ^ (- e)) den <= 2 ^ (- e))
      by (apply rne_div_le; nia).
    unfold Qle; simpl. rewrite Z2Pos.id by lia. lia.
Qed.

Lemma round64_le_1 (q : Q) : (0 <= q)%Q -> (q <= 1)%Q -> (round64 q <= 1)%Q.
Proof.
  destruct q as [n d]. unfold Qle; simpl. intros H0 H1.
  unfold round64; simpl.
  destruct (Z.compare_spec n 0) as [Hn | Hn | Hn].
  - unfold Qle; simpl. lia.
  - lia.
  - apply round_at_le_1; lia.
Qed.

Lemma ceiling_gap (x : Q) :
  (0 <= inject_Z (Qceiling x) - x)%Q /\ (inject_Z (Qceiling x) - x <= 1)%Q.
Proof.
  pose proof (Qle_ceiling x) as H1.
  pose proof (Qceiling_lt x) as H2.
  replace (Qceiling x - 1)%Z with (Qceiling x + (-1))%Z in H2 by lia.
  rewrite inject_Z_plus in H2.
  change (inject_Z (-1)) with (-1 # 1)%Q in H2.
  generalize dependent (inject_Z (Qceiling x)). intros c H1 H2.
  split; lra.
Qed.

Lemma calculateRoundup_le_1 (x : Q) : (calculateRoundup x <= 1)%Q.
Proof.
  unfold calculateRoundup, fsub.
  destruct (ceiling_gap x) as [H0 H1].
  apply Q.max_lub; [discriminate | apply round64_le_1; assumption].
Qed.

Lemma calculateRoundup_nonneg (x : Q) : (0 <= calculateRoundup x)%Q.
Proof. unfold calculateRoundup. apply Q.le_max_l. Qed.

(* ------------------------------------------------------------------ *)
(** ** C1: [calculateRoundup] *)

(** C1 (as stated): [calculateRoundup(13.35) = 0.65] and
    [calculateRoundup(x) < 1] for all [x] both fail in binary64:
    [Math.ceil(13.35) - 13.35] is [0.6500000000000004], and for
    [x = 1e-20] the difference [1 - 1e-20] rounds to [1]. *)
Lemma calculateRoundup_counterexample :
  ~ (calculateRoundup (lit 1335 100) == lit 65 100)%Q /\
  (calculateRoundup (lit 1 100000000000000000000) == 1)%Q.
Proof.
  split.
  - unfold Qeq. vm_compute. discriminate.
  - unfold Qeq. vm_compute. reflexivity.
Qed.

(** C1 (amended): [calculateRoundup(x)] is [max(0, ceil(x) - x)] with the
    subtraction rounded to binary64; for every [x] it lies in the closed
    interval [[0, 1]]; [calculateRoundup(9.00) = calculateRoundup(0.00) = 0];
    [calculateRoundup(13.35)] is [0.6500000000000004], which the
    2-decimal rounding applied when the entry is built ([toFixed(2)])
    turns into [0.65]. *)
Theorem calculateRoundup_spec :
  (forall x : Q, 0 <= calculateRoundup x /\ calculateRoundup x <= 1)%Q /\
  (calculateRoundup (lit 900 100) == 0)%Q /\
  (calculateRoundup 0 == 0)%Q /\
  (calculateRoundup (lit 1335 100) == lit 6500000000000004 10000000000000000)%Q /\
  (toFixed2 (calculateRoundup (lit 1335 100)) == lit 65 100)%Q.
Proof.
  split; [intro x; split; [apply calculateRoundup_nonneg | apply calculateRoundup_le_1] |].
  repeat split; unfold Qeq; vm_compute; reflexivity.
Qed.

(* ------------------------------------------------------------------ *)
(** ** C2: recording is idempotent on the transfer id *)

Lemma has_transaction_count (id : string) (rows : list RoundupRecord) :
  has_transaction id rows = negb (Nat.eqb
    (List.length (filter (fun r => String.eqb (transaction_id r) id) rows)) 0).
Proof.
  induction rows as [| r rows IH]; [reflexivity |].
  simpl. destruct (String.eqb (transaction_id r) id); simpl; [reflexivity | exact IH].
Qed.

Lemma count_tx_app (id : string) (rows : list RoundupRecord) (row : RoundupRecord) :
  List.length (filter (fun r => String.eqb (transaction_id r) id) (rows ++ [row])%list)
  = (List.length (filter (fun r => String.eqb (transaction_id r) id) rows)
     + if String.eqb (transaction_id row) id then 1 else 0)%nat.
Proof.
  rewrite filter_app, length_app. simpl.
  destruct (String.eqb (transaction_id row) id); reflexivity.
Qed.

(** C2: with no persistence failure other than the duplicate key, a second
    [storeRoundup] of the same transfer id (for any wallet) returns [null]
    without raising, leaves the ledger as the first call left it, so that
    exactly one entry for the id is stored and every wallet's
    [getTotalRoundup] is unaffected by the second call. *)
Theorem storeRoundup_idempotent (env : Env) (w w' : string)
    (c c' : RoundupCalculation) (d : DB) (r1 : Exn + option RoundupRecord) (s1 : St) :
  insert_fails env (c_transaction_id c) = false ->
  c_transaction_id c' = c_transaction_id c ->
  (count_tx (c_transaction_id c) d <= 1)%nat ->
  run (storeRoundup env w c) d = (r1, s1) ->
  storeRoundup env w' c' s1
    = (inr None, (fst s1, (snd s1 ++ [EvInsertRoundup (c_transaction_id c)])%list)) /\
  count_tx (c_transaction_id c) (fst s1) = 1%nat /\
  (forall a, fst (run (getTotalRoundup env a) (fst (snd (storeRoundup env w' c' s1))))
             = fst (run (getTotalRoundup env a) (fst s1))).
Proof.
  intros Hfail Hid Hcount Hrun.
  unfold run, storeRoundup, insert_roundup_row, bind, emit, get_db, put_db, ret, throw
    in Hrun |- *.
  simpl in Hrun |- *. rewrite Hfail in Hrun. rewrite Hid, Hfail.
  unfold count_tx in *.
  destruct (has_transaction (c_transaction_id c) (roundup_records d)) eqn:Hhas.
  - inversion Hrun; subst; simpl. rewrite Hhas.
    rewrite has_transaction_count in Hhas.
    destruct (Nat.eqb_spec (List.length (filter (fun r => String.eqb (transaction_id r)
               (c_transaction_id c)) (roundup_records d))) 0); [discriminate |].
    split; [reflexivity | split; [lia | intro; reflexivity]].
  - inversion Hrun; subst; simpl.
    assert (Hnew : has_transaction (c_transaction_id c)
                     (roundup_records d ++ [row_of w c])%list = true).
    { unfold has_transaction. rewrite existsb_app. simpl.
      rewrite String.eqb_refl. apply orb_true_r. }
    rewrite Hnew. rewrite count_tx_app. simpl. rewrite String.eqb_refl.
    rewrite has_transaction_count in Hhas.
    destruct (Nat.eqb_spec (List.length (filter (fun r => String.eqb (transaction_id r)
               (c_transaction_id c)) (roundup_records d))) 0); [| discriminate].
    split; [reflexivity | split; [lia | intro; reflexivity]].
Qed.

Lemma storeRoundup_idempotent_witness :
  fst (run (storeRoundup (sample_env no_feed) W (sample_calc "tx1" (lit 65 100))) empty_db)
    = inr (Some (row_of W (sample_calc "tx1" (lit 65 100)))) /\
  count_tx "tx1"
    (fst (snd (run (storeRoundup (sample_env no_feed) W (sample_calc "tx1" (lit 65 100))) empty_db)))
    = 1%nat.
Proof.
  split; [reflexivity |].
  apply (storeRoundup_idempotent (sample_env no_feed) W W
           (sample_calc "tx1" (lit 65 100)) (sample_calc "tx1" (lit 65 100)) empty_db
           (fst (run (storeRoundup (sample_env no_feed) W (sample_calc "tx1" (lit 65 100))) empty_db))
           (snd (run (storeRoundup (sample_env no_feed) W (sample_calc "tx1" (lit 65 100))) empty_db)));
    [reflexivity | reflexivity | unfold count_tx; simpl; lia | reflexivity].
Defined.

(* ------------------------------------------------------------------ *)
(** ** Monad laws used to step through the routes *)

Lemma bind_inr {A B} (m : M A) (k : A -> M B) (s s' : St) (x : A) :
  m s = (inr x, s') -> bind m k s = k x s'.
Proof. intro H. unfold bind. rewrite H. reflexivity. Qed.

Lemma bind_inl {A B} (m : M A) (k : A -> M B) (s s' : St) (e : Exn) :
  m s = (inl e, s') -> bind m k s = (inl e, s').
Proof. intro H. unfold bind. rewrite H. reflexivity. Qed.

Lemma catch_inr {A} (m : M A) (h : Exn -> M A) (s s' : St) (x : A) :
  m s = (inr x, s') -> catch m h s = (inr x, s').
Proof. intro H. unfold catch. rewrite H. reflexivity. Qed.

(* ------------------------------------------------------------------ *)
(** ** Frame lemmas for the tracking run *)

Lemma storeRoundup_tracking (env : Env) (w : string) (c : RoundupCalculation) (st : St) :
  wallet_tracking (fst (snd (storeRoundup env w c st))) = wallet_tracking (fst st).
Proof.
  destruct st as [d evs].
  unfold storeRoundup, insert_roundup_row, bind, emit, get_db, put_db, ret, throw; simpl.
  destruct (insert_fails env (c_transaction_id c)); [reflexivity |].
  destruct (has_transaction (c_transaction_id c) (roundup_records d)); reflexivity.
Qed.

Lemma processTransaction_None (env : Env) (p : ParsedHeliusTransaction) :
  processTransaction env p = None <-> unpriced env p = true.
Proof.
  unfold processTransaction, unpriced.
  destruct (Qeq_bool (getTokenPrice env (token p) (tokenMint p)) 0); split;
    congruence.
Qed.

(** The per-transfer loop never raises: every transfer is counted as
    stored or skipped, unpriced transfers among the skipped ones, and the
    baseline table is untouched. *)
Lemma process_loop_spec (env : Env) (w : string) (txs : list ParsedHeliusTransaction) :
  forall stored skipped st,
  exists stored' skipped' st',
    process_loop env w txs stored skipped st = (inr (stored', skipped'), st') /\
    (stored' + skipped' = stored + skipped + List.length txs)%nat /\
    (skipped + List.length (filter (unpriced env) txs) <= skipped')%nat /\
    wallet_tracking (fst st') = wallet_tracking (fst st).
Proof.
  induction txs as [| tx rest IH]; intros stored skipped st.
  - exists stored, skipped, st. simpl. repeat split; lia.
  - simpl process_loop. unfold bind at 1, catch at 1.
    destruct (processTransaction env tx) as [calc |] eqn:Hp.
    + assert (Hu : unpriced env tx = false).
      { destruct (unpriced env tx) eqn:E; [| reflexivity].
        apply processTransaction_None in E. congruence. }
      pose proof (storeRoundup_tracking env w calc st) as Htr.
      unfold bind at 1.
      destruct (storeRoundup env w calc st) as [[e | [r |]] st1] eqn:Hs;
        simpl in Htr |- *; rewrite Hu.
      * destruct (IH stored (S skipped) st1) as (s' & k' & st' & H1 & H2 & H3 & H4).
        exists s', k', st'. unfold ret. simpl. rewrite H1. repeat split; try lia; congruence.
      * destruct (IH (S stored) skipped st1) as (s' & k' & st' & H1 & H2 & H3 & H4).
        exists s', k', st'. unfold ret. simpl. rewrite H1. repeat split; try lia; congruence.
      * destruct (IH stored (S skipped) st1) as (s' & k' & st' & H1 & H2 & H3 & H4).
        exists s', k', st'. unfold ret. simpl. rewrite H1. repeat split; try lia; congruence.
    + assert (Hu : unpriced env tx = true) by (apply processTransaction_None; exact Hp).
      simpl. rewrite Hu. simpl.
      destruct (IH stored (S skipped) st) as (s' & k' & st' & H1 & H2 & H3 & H4).
      exists s', k', st'. unfold ret. rewrite H1. repeat split; try lia; congruence.
Qed.

Lemma getTotalRoundup_pure (env : Env) (a : string) (st : St) :
  exists total, getTotalRoundup env a st = (inr total, st).
Proof.
  unfold getTotalRoundup, getRoundups, catch, bind, ret, throw, get_db.
  destruct (read_fails env); eexists; reflexivity.
Qed.

Lemma fetchTransactions_db (env : Env) (a : string) (n : nat) (b : option string) (st : St) :
  fst (snd (fetchTransactions env a n b st)) = fst st.
Proof.
  unfold fetchTransactions, bind, emit, ret, throw; simpl.
  destruct (helius env a _); reflexivity.
Qed.

(** Fetching writes nothing. *)
Lemma fetch_loop_db (env : Env) (fuel : nat) :
  forall a limit afterSignature acc before found st,
  fst (snd (fetch_loop env fuel a limit afterSignature acc before found st)) = fst st.
Proof.
  induction fuel as [| fuel IH]; intros a limit afterSignature acc before found st;
    [reflexivity |].
  simpl. destruct (Nat.ltb (List.length acc) limit); [| reflexivity].
  unfold bind at 1.
  pose proof (fetchTransactions_db env a (Nat.min 100 (limit - List.length acc)) before st) as Hf.
  destruct (fetchTransactions env a _ before st) as [[e | txs] st1]; simpl in Hf |- *;
    [exact Hf |].
  destruct txs as [| tx txs]; [exact Hf |].
  destruct (scan_page a afterSignature (tx :: txs) found acc) as [acc' found'].
  destruct found'; [exact Hf |].
  destruct (negb (truthy (last_signature (tx :: txs)))); [exact Hf |].
  rewrite IH. exact Hf.
Qed.

Lemma stored_baseline_update (env : Env) (a tx : string) (d : DB) (t : WalletTracking) :
  find (fun t => String.eqb (wallet_address t) a) (wallet_tracking d) = Some t ->
  stored_baseline a (update_tracking env a tx d) = Some tx.
Proof.
  unfold stored_baseline, update_tracking; simpl.
  induction (wallet_tracking d) as [| t0 l IH]; simpl; [discriminate |].
  destruct (String.eqb (wallet_address t0) a) eqn:E; simpl.
  - rewrite E. reflexivity.
  - rewrite E. exact IH.
Qed.

(* ------------------------------------------------------------------ *)
(** ** C3: skip without stall *)

(** C3: when the wallet has a baseline and the fetch returns a non-empty
    batch [mostRecentTx :: rest], the run succeeds and reports
    [processed = n], [stored + skipped = n] with every unpriced transfer
    among the skipped ones, and the stored baseline becomes the signature
    of the batch's first (newest) transfer. *)
Theorem track_skip_without_stall (env : Env) (fuel : nat) (a : string) (limit : nat)
    (ignoreBaseline : bool) (d : DB) (b : string)
    (mostRecentTx : ParsedHeliusTransaction) (rest : list ParsedHeliusTransaction) (s1 : St) :
  truthy (Some a) = true ->
  baseline_of (find (fun t => String.eqb (wallet_address t) a) (wallet_tracking d)) = Some b ->
  fetchOutgoingTransactions env fuel a limit (if ignoreBaseline then None else Some b) (d, [])
    = (inr (mostRecentTx :: rest), s1) ->
  exists stored skipped totalRoundup s2,
    run (POST_track env fuel (Some a) limit ignoreBaseline) d
      = (inr (TrackOk (List.length (mostRecentTx :: rest)) stored skipped totalRoundup
                      (p_signature mostRecentTx) (Some (Qle_bool 1 totalRoundup))), s2) /\
    (stored + skipped = List.length (mostRecentTx :: rest))%nat /\
    (List.length (filter (unpriced env) (mostRecentTx :: rest)) <= skipped)%nat /\
    stored_baseline a (fst s2) = Some (p_signature mostRecentTx).
Proof.
  intros Ha Hb Hfetch.
  assert (Hd1 : fst s1 = d).
  { pose proof (fetch_loop_db env fuel a limit (if ignoreBaseline then None else Some b)
                  [] None (negb (truthy (if ignoreBaseline then None else Some b))) (d, []))
      as H.
    unfold fetchOutgoingTransactions in Hfetch. rewrite Hfetch in H. exact H. }
  destruct (find (fun t => String.eqb (wallet_address t) a) (wallet_tracking d))
    as [t |] eqn:Hfind; [| discriminate].
  destruct (process_loop_spec env a (mostRecentTx :: rest) 0 0 s1)
    as (stored & skipped & st2 & Hloop & Hsum & Hskip & Htr).
  set (st3 := (update_tracking env a (p_signature mostRecentTx) (fst st2),
               (snd st2 ++ [EvWriteTracking a (p_signature mostRecentTx)])%list)).
  destruct (getTotalRoundup_pure env a st3) as [total Htot].
  exists stored, skipped, total, st3.
  split; [| split; [simpl List.length in *; lia | split; [simpl List.length in *; lia |]]].
  - assert (Hgw : getWalletTracking a (d, []) = (inr (Some t), (d, []))).
    { unfold getWalletTracking, bind, get_db, ret. simpl. rewrite Hfind. reflexivity. }
    assert (Hproc : processAndStoreTransactions env a (mostRecentTx :: rest) s1
                    = (inr {| res_stored := stored; res_skipped := skipped;
                              res_total := List.length (mostRecentTx :: rest) |}, st2)).
    { unfold processAndStoreTransactions. rewrite (bind_inr _ _ _ _ _ Hloop). reflexivity. }
    assert (Hupd : updateLastTracked env a (p_signature mostRecentTx) st2 = (inr tt, st3))
      by reflexivity.
    unfold run, POST_track. apply catch_inr.
    rewrite Ha. change (negb true) with false. cbv iota.
    rewrite (bind_inr _ _ _ _ _ Hgw). cbv beta. rewrite Hb. cbv iota.
    rewrite (bind_inr _ _ _ _ _ Hfetch). cbv beta iota.
    rewrite (bind_inr _ _ _ _ _ Hproc). cbv beta.
    rewrite (bind_inr _ _ _ _ _ Hupd). cbv beta.
    rewrite (bind_inr _ _ _ _ _ Htot). reflexivity.
  - simpl. apply (stored_baseline_update env a _ (fst st2) t).
    rewrite Htr. rewrite Hd1. exact Hfind.
Qed.

(** The spec's scenario: three new transfers, the middle one unpriceable:
    processed 3, stored 2, skipped 1, baseline advanced to [T3]. *)
Lemma track_skip_without_stall_witness :
  fst (run (POST_track env3 10 (Some W) 100 false) db3)
    = inr (TrackOk 3 2 1 (lit 35 100) "T3" (Some false)) /\
  stored_baseline W (fst (snd (run (POST_track env3 10 (Some W) 100 false) db3)))
    = Some "T3".
Proof.
  assert (Hf : fetchOutgoingTransactions env3 10 W 100 (Some "T0") (db3, [])
               = (inr batch3, state3)) by (vm_compute; reflexivity).
  unfold batch3 in Hf.
  destruct (track_skip_without_stall env3 10 W 100 false db3 "T0" _ _ _ eq_refl eq_refl Hf)
    as (stored & skipped & total & s2 & Hrun & _ & _ & Hbase).
  split.
  - vm_compute. reflexivity.
  - rewrite Hrun. exact Hbase.
Defined.

(* ------------------------------------------------------------------ *)
(** ** C4: an uninitialized wallet is rejected before any fetch or write *)

(** C4: when the wallet has no tracking row, or one whose
    [last_tracked_tx] is [null] (or empty), [POST /api/roundups/track]
    answers "not initialized"; the database is unchanged and no fetch and
    no write took place (the effect log is empty). *)
Theorem track_uninitialized_rejected (env : Env) (fuel : nat) (a : string) (limit : nat)
    (ignoreBaseline : bool) (d : DB) :
  truthy (Some a) = true ->
  baseline_of (find (fun t => String.eqb (wallet_address t) a) (wallet_tracking d)) = None ->
  run (POST_track env fuel (Some a) limit ignoreBaseline) d = (inr TrackNotInitialized, (d, [])).
Proof.
  intros Ha Hb.
  unfold run, POST_track. apply catch_inr.
  rewrite Ha. change (negb true) with false. cbv iota.
  assert (Hgw : getWalletTracking a (d, [])
                = (inr (find (fun t => String.eqb (wallet_address t) a) (wallet_tracking d)),
                   (d, []))) by reflexivity.
  rewrite (bind_inr _ _ _ _ _ Hgw). cbv beta. rewrite Hb. reflexivity.
Qed.

Lemma track_uninitialized_rejected_witness :
  run (POST_track (sample_env no_feed) 10 (Some W) 100 false) db_unset
    = (inr TrackNotInitialized, (db_unset, [])) /\
  run (POST_track (sample_env no_feed) 10 (Some W) 100 true) empty_db
    = (inr TrackNotInitialized, (empty_db, [])).
Proof.
  split; apply track_uninitialized_rejected; reflexivity.
Defined.

(* ------------------------------------------------------------------ *)
(** ** C5: what [fetchOutgoingTransactions] returns *)

(** C5 (as stated): a self-transfer (the wallet both sender and receiver)
    made after the baseline is returned as an outgoing transfer. *)
Lemma fetchOutgoing_counterexample :
  match fst (fetchOutgoingTransactions (sample_env (feed_of 100 histS)) 10 W 100
               (Some "B0") (empty_db, [])) with
  | inr [p] => p_signature p = "S1" /\ fromAddress p = W /\ toAddress p = W
  | _ => False
  end.
Proof. vm_compute. repeat split. Qed.

Lemma newer_than_firstn (b : string) (k : nat) (l : list HeliusTransaction) :
  newer_than b (firstn k l) = firstn k (newer_than b l).
Proof.
  revert l. induction k as [| k IH]; intros [| tx l]; simpl; try reflexivity.
  destruct (String.eqb (signature tx) b); [reflexivity |]. simpl. rewrite IH. reflexivity.
Qed.

Lemma newer_than_skipn (b : string) (l : list HeliusTransaction) :
  forall j, (j <= List.length (newer_than b l))%nat ->
  newer_than b (skipn j l) = skipn j (newer_than b l).
Proof.
  induction l as [| tx l IH]; intros j Hj.
  - rewrite !skipn_nil. reflexivity.
  - simpl in Hj |- *. destruct (String.eqb (signature tx) b) eqn:E.
    + simpl in Hj. assert (j = 0%nat) by lia. subst. simpl. rewrite E. reflexivity.
    + destruct j as [| j]; simpl; [rewrite E; reflexivity |].
      simpl in Hj. apply IH. lia.
Qed.

Lemma after_sig_newer (b : string) (hist : list HeliusTransaction) (tx : HeliusTransaction) :
  In tx (newer_than b hist) ->
  exists j, after_sig (signature tx) hist = skipn j hist /\
            (j <= List.length (newer_than b hist))%nat.
Proof.
  induction hist as [| h hist IH]; simpl; [contradiction |].
  destruct (String.eqb (signature h) b) eqn:E; [contradiction |].
  intros [-> | Hin].
  - exists 1%nat. rewrite String.eqb_refl. split; [reflexivity | simpl; lia].
  - destruct (String.eqb (signature h) (signature tx)).
    + exists 1%nat. split; [reflexivity | simpl; lia].
    + destruct (IH Hin) as [j [Hj Hle]]. exists (S j). split; [exact Hj | simpl; lia].
Qed.

Lemma last_signature_in (l : list HeliusTransaction) (s : string) :
  last_signature l = Some s -> exists tx, In tx l /\ signature tx = s.
Proof.
  unfold last_signature. destruct (rev l) as [| tx rest] eqn:E; [discriminate |].
  intro H. injection H as <-. exists tx. split; [| reflexivity].
  apply in_rev. rewrite E. left. reflexivity.
Qed.

Lemma In_firstn_skipn {A} (x : A) (k j : nat) (l : list A) :
  In x (firstn k (skipn j l)) -> In x l.
Proof.
  intro H. rewrite <- (firstn_skipn j l). apply in_app_iff. right.
  rewrite <- (firstn_skipn k (skipn j l)). apply in_app_iff. left. exact H.
Qed.

(** [parseTransaction] only keeps transactions labelled [sent], and the
    label [sent] means the wallet sends the first token transfer or,
    failing one that involves it, the first native transfer. *)
Lemma parseTransaction_sent (tx : HeliusTransaction) (a : string) (p : ParsedHeliusTransaction) :
  parseTransaction tx a = Some p ->
  p_type p = sent /\ p_signature p = signature tx /\ sends_first_transfer tx a.
Proof.
  unfold parseTransaction, sends_first_transfer, classify.
  destruct (nativeTransfers tx) as [| n ns]; destruct (tokenTransfers tx) as [| t ts];
    repeat match goal with
           | |- context [String.eqb ?x ?y] => destruct (String.eqb_spec x y)
           end; simpl;
    intro H; try discriminate H; injection H as <-; simpl; repeat split; auto.
Qed.

Lemma scan_page_sound (a base : string) (l : list HeliusTransaction) :
  truthy (Some base) = true ->
  forall acc acc' found',
  scan_page a (Some base) l false acc = (acc', found') ->
  (forall p, In p acc' ->
     In p acc \/ exists tx, In tx (newer_than base l) /\ parseTransaction tx a = Some p) /\
  (found' = false -> newer_than base l = l).
Proof.
  intros Hb. induction l as [| tx l IH]; intros acc acc' found' Hs;
    cbn [scan_page newer_than] in Hs |- *.
  - injection Hs as <- <-. split; [intros p Hp; left; exact Hp | reflexivity].
  - assert (Hm : matches_baseline (Some base) (signature tx) = String.eqb (signature tx) base)
      by (unfold matches_baseline; rewrite Hb; reflexivity).
    rewrite Hm in Hs.
    destruct (String.eqb (signature tx) base) eqn:E.
    + injection Hs as <- <-. split; [intros p Hp; left; exact Hp | discriminate].
    + destruct (parseTransaction tx a) as [parsed |] eqn:Hp.
      * destruct (TxType_eqb (p_type parsed) sent).
        -- destruct (IH _ _ _ Hs) as [H1 H2]. split.
           ++ intros p Hin. destruct (H1 p Hin) as [H | (tx' & Hin' & Hp')].
              ** apply in_app_iff in H. destruct H as [H | [<- | []]]; [left; exact H |].
                 right. exists tx. split; [left; reflexivity | exact Hp].
              ** right. exists tx'. split; [right; exact Hin' | exact Hp'].
           ++ intro Hf. rewrite (H2 Hf). reflexivity.
        -- destruct (IH _ _ _ Hs) as [H1 H2]. split.
           ++ intros p Hin. destruct (H1 p Hin) as [H | (tx' & Hin' & Hp')];
                [left; exact H | right; exists tx'; split; [right; exact Hin' | exact Hp']].
           ++ intro Hf. rewrite (H2 Hf). reflexivity.
      * destruct (IH _ _ _ Hs) as [H1 H2]. split.
        -- intros p Hin. destruct (H1 p Hin) as [H | (tx' & Hin' & Hp')];
             [left; exact H | right; exists tx'; split; [right; exact Hin' | exact Hp']].
        -- intro Hf. rewrite (H2 Hf). reflexivity.
Qed.

Lemma In_firstn {A} (x : A) (k : nat) (l : list A) : In x (firstn k l) -> In x l.
Proof. exact (In_firstn_skipn x k 0 l). Qed.

Lemma fetchTransactions_feed (env : Env) (ps : nat) (hist : list HeliusTransaction)
    (a : string) (k : nat) (cb : option string) (st : St) :
  (forall x y, helius env x y = feed_of ps hist x y) ->
  fetchTransactions env a k cb st
    = (inr (firstn k (firstn ps (feed_source hist (if truthy cb then cb else None)))),
       (fst st, (snd st ++ [EvFetch a (if truthy cb then cb else None)])%list)).
Proof.
  intro Hh. destruct st as [d evs].
  unfold fetchTransactions, bind, emit, ret. simpl. rewrite Hh. reflexivity.
Qed.

Section FetchSound.

Variables (env : Env) (ps : nat) (hist : list HeliusTransaction) (a base : string).
Hypothesis Hfeed : forall x y, helius env x y = feed_of ps hist x y.
Hypothesis Hbase : truthy (Some base) = true.

(** Every collected transfer is the parse of a transaction newer than the
    baseline. *)
Definition collected_ok (acc : list ParsedHeliusTransaction) : Prop :=
  forall p, In p acc ->
  exists tx, In tx (newer_than base hist) /\ parseTransaction tx a = Some p.

Lemma fetch_loop_sound (limit fuel : nat) :
  forall acc cb st l st',
  collected_ok acc ->
  (exists j, (j <= List.length (newer_than base hist))%nat /\
             feed_source hist (if truthy cb then cb else None) = skipn j hist) ->
  fetch_loop env fuel a limit (Some base) acc cb false st = (inr l, st') ->
  collected_ok l.
Proof.
  induction fuel as [| fuel IH]; intros acc cb st l st' Hacc [j [Hj Hsrc]] Hrun;
    [discriminate Hrun |].
  cbn [fetch_loop] in Hrun.
  destruct (Nat.ltb (List.length acc) limit); [| injection Hrun as <- _; exact Hacc].
  rewrite (bind_inr _ _ _ _ _ (fetchTransactions_feed env ps hist a
             (Nat.min 100 (limit - List.length acc)) cb st Hfeed)) in Hrun.
  cbv beta in Hrun. rewrite Hsrc in Hrun.
  assert (Hnew : newer_than base (firstn (Nat.min 100 (limit - List.length acc))
                                     (firstn ps (skipn j hist)))
                 = firstn (Nat.min 100 (limit - List.length acc))
                          (firstn ps (skipn j (newer_than base hist)))).
  { rewrite !newer_than_firstn, newer_than_skipn by exact Hj. reflexivity. }
  assert (Hsub : forall x, In x (newer_than base
                   (firstn (Nat.min 100 (limit - List.length acc)) (firstn ps (skipn j hist)))) ->
                 In x (newer_than base hist)).
  { intros x Hx. rewrite Hnew in Hx. apply In_firstn in Hx.
    exact (In_firstn_skipn x ps j _ Hx). }
  destruct (firstn (Nat.min 100 (limit - List.length acc)) (firstn ps (skipn j hist)))
    as [| tx txs] eqn:Ep; [injection Hrun as <- _; exact Hacc |].
  destruct (scan_page a (Some base) (tx :: txs) false acc) as [acc' found'] eqn:Hs.
  destruct (scan_page_sound a base (tx :: txs) Hbase acc acc' found' Hs) as [H1 H2].
  assert (Hacc' : collected_ok acc').
  { intros p Hp. destruct (H1 p Hp) as [Hin | (tx' & Hin' & Hp')].
    - exact (Hacc p Hin).
    - exists tx'. split; [apply Hsub; exact Hin' | exact Hp']. }
  destruct found'; [injection Hrun as <- _; exact Hacc' |].
  destruct (negb (truthy (last_signature (tx :: txs)))) eqn:Et;
    [injection Hrun as <- _; exact Hacc' |].
  refine (IH acc' (last_signature (tx :: txs)) _ l st' Hacc' _ Hrun).
  apply negb_false_iff in Et. rewrite Et.
  destruct (last_signature (tx :: txs)) as [s |] eqn:El; [| discriminate Et].
  destruct (last_signature_in _ _ El) as (tx0 & Hin0 & <-).
  assert (Hn : In tx0 (newer_than base hist)) by (apply Hsub; rewrite (H2 eq_refl); exact Hin0).
  destruct (after_sig_newer base hist tx0 Hn) as [j' [Hj' Hle']].
  exists j'. split; [exact Hle' | exact Hj'].
Qed.

End FetchSound.

(** C5 (amended): when the upstream feed pages a history [hist] (newest
    first, [before] continuing after the first transaction with that
    signature) and the baseline signature [base] is non-empty, every
    transfer returned by [fetchOutgoingTransactions] is the parse of a
    transaction strictly newer than the first occurrence of [base] (the
    baseline and everything older are excluded), has type [sent], carries
    that transaction's signature, and the wallet is the sender of the
    transaction's first token transfer or first native transfer. A
    self-transfer is not excluded. *)
Theorem fetchOutgoing_sent_after_baseline (env : Env) (ps : nat)
    (hist : list HeliusTransaction) (fuel : nat) (address base : string) (limit : nat)
    (st st' : St) (l : list ParsedHeliusTransaction) :
  (forall x y, helius env x y = feed_of ps hist x y) ->
  truthy (Some base) = true ->
  fetchOutgoingTransactions env fuel address limit (Some base) st = (inr l, st') ->
  forall p, In p l ->
  exists tx, In tx (newer_than base hist) /\ parseTransaction tx address = Some p /\
             p_type p = sent /\ p_signature p = signature tx /\
             sends_first_transfer tx address.
Proof.
  intros Hh Hb Hrun p Hp.
  unfold fetchOutgoingTransactions in Hrun. rewrite Hb in Hrun. cbn [negb] in Hrun.
  assert (Hok : collected_ok hist address base l).
  { refine (fetch_loop_sound env ps hist address base Hh Hb limit fuel [] None st l st' _ _ Hrun).
    - intros q [].
    - exists 0%nat. split; [lia | reflexivity]. }
  destruct (Hok p Hp) as (tx & Hin & Hparse).
  destruct (parseTransaction_sent tx address p Hparse) as (Ht & Hs & Hf).
  exists tx. repeat split; assumption.
Qed.

Lemma fetchOutgoing_sent_after_baseline_witness :
  outS <> [] /\
  forall p, In p outS ->
  exists tx, In tx (newer_than "B0" histS) /\ parseTransaction tx W = Some p /\
             p_type p = sent /\ p_signature p = signature tx /\
             sends_first_transfer tx W.
Proof.
  split; [unfold outS; discriminate |].
  apply (fetchOutgoing_sent_after_baseline (sample_env (feed_of 100 histS)) 100 histS 10 W "B0"
           100 (empty_db, []) (snd runS) outS).
  - intros x y. reflexivity.
  - reflexivity.
  - vm_compute. reflexivity.
Defined.

(** ** The running total and the readiness check *)

Lemma getTotalRoundup_value (env : Env) (w : string) (st : St) :
  getTotalRoundup env w st =
  (inr (if read_fails env then 0%Q
        else toFixed2 (sum_roundups (firstn 1000 (sort_desc (records_of w (fst st)))))), st).
Proof.
  unfold getTotalRoundup, getRoundups, catch, bind, ret, throw, get_db.
  destruct (read_fails env); reflexivity.
Qed.

Lemma isReadyForInvestment_value (env : Env) (w : string) (st : St) :
  isReadyForInvestment env w st =
  (inr (Qle_bool 1 (if read_fails env then 0%Q
        else toFixed2 (sum_roundups (firstn 1000 (sort_desc (records_of w (fst st))))))), st).
Proof.
  unfold isReadyForInvestment, catch, bind at 1. rewrite getTotalRoundup_value. reflexivity.
Qed.

Lemma insert_desc_perm (r : RoundupRecord) (l : list RoundupRecord) :
  Permutation (insert_desc r l) (r :: l).
Proof.
  induction l as [| h t IH]; simpl; [reflexivity |].
  destruct (Z.ltb (transaction_date h) (transaction_date r)); [reflexivity |].
  eapply perm_trans; [apply perm_skip, IH | apply perm_swap].
Qed.

Lemma sort_desc_perm_aux (l acc : list RoundupRecord) :
  Permutation (fold_left (fun acc r => insert_desc r acc) l acc) (l ++ acc)%list.
Proof.
  revert acc. induction l as [| r l IH]; intro acc; simpl; [reflexivity |].
  eapply perm_trans; [apply IH |].
  eapply perm_trans; [apply Permutation_app_head, insert_desc_perm |].
  apply Permutation_sym, Permutation_middle.
Qed.

Lemma sort_desc_perm (l : list RoundupRecord) : Permutation (sort_desc l) l.
Proof.
  unfold sort_desc. eapply perm_trans; [apply sort_desc_perm_aux |].
  rewrite app_nil_r. reflexivity.
Qed.

Lemma insert_desc_hd (h r : RoundupRecord) (t : list RoundupRecord) :
  HdRel date_desc h t -> date_desc h r -> HdRel date_desc h (insert_desc r t).
Proof.
  intros Ht Hr. destruct t as [| h' t']; simpl; [constructor; exact Hr |].
  destruct (Z.ltb (transaction_date h') (transaction_date r)); constructor;
    [exact Hr | inversion Ht; assumption].
Qed.

Lemma insert_desc_sorted (r : RoundupRecord) (l : list RoundupRecord) :
  Sorted date_desc l -> Sorted date_desc (insert_desc r l).
Proof.
  induction l as [| h t IH]; intro Hs; simpl; [repeat constructor |].
  destruct (Z.ltb (transaction_date h) (transaction_date r)) eqn:E.
  - constructor; [exact Hs | constructor]. apply Z.ltb_lt in E. unfold date_desc. lia.
  - inversion Hs as [| ? ? Ht Hh]; subst. constructor; [apply IH; exact Ht |].
    apply insert_desc_hd; [exact Hh |]. apply Z.ltb_ge in E. exact E.
Qed.

Lemma sort_desc_sorted (l : list RoundupRecord) : Sorted date_desc (sort_desc l).
Proof.
  unfold sort_desc.
  assert (H : forall acc, Sorted date_desc acc ->
              Sorted date_desc (fold_left (fun acc r => insert_desc r acc) l acc)).
  { induction l as [| r l IH]; intros acc Hacc; simpl; [exact Hacc |].
    apply IH, insert_desc_sorted, Hacc. }
  apply H. constructor.
Qed.

Lemma Sorted_firstn {A} (R : A -> A -> Prop) (k : nat) (l : list A) :
  Sorted R l -> Sorted R (firstn k l).
Proof.
  revert l. induction k as [| k IH]; intros [| x l] Hs; simpl; try constructor.
  - inversion Hs; subst. apply IH. assumption.
  - inversion Hs as [| ? ? Hl Hh]; subst. destruct l as [| y l]; destruct k; simpl;
      constructor. inversion Hh; assumption.
Qed.

(** C6 (as stated): two old entries of 0.50 sum with 1000 newer entries
    of 0.00 to 1.00, yet the wallet is not ready: only the newest 1000
    entries are read. *)
Lemma isReadyForInvestment_counterexample :
  sum_roundups (records_of W db_big) == 1 /\
  fst (run (isReadyForInvestment (sample_env no_feed) W) db_big) = inr false.
Proof. split; vm_compute; reflexivity. Qed.

(** C6 (amended): [isReadyForInvestment] returns [total >= 1.00] for the
    [total] that [getTotalRoundup] returns, neither reading more nor
    writing anything; that total is the 2-decimal rounding of the sum of
    the round-up amounts of the wallet's newest 1000 entries, or 0 when
    the read fails, so a wallet is never ready when the read fails.
    Entries 0.65 and 0.35 (sum 1.00) make a wallet ready; entries 0.50 and
    0.49 (sum 0.99) do not; and a wallet with two old entries of 0.50 and
    1000 newer entries of 0.00 (sum 1.00) is not ready. *)
Theorem isReadyForInvestment_threshold (env : Env) (w : string) (d : DB) :
  (exists total,
     run (getTotalRoundup env w) d = (inr total, (d, [])) /\
     run (isReadyForInvestment env w) d = (inr (Qle_bool 1 total), (d, [])) /\
     total = (if read_fails env then 0%Q
              else toFixed2 (sum_roundups (firstn 1000 (sort_desc (records_of w d)))))) /\
  (read_fails env = true -> run (isReadyForInvestment env w) d = (inr false, (d, []))) /\
  fst (run (isReadyForInvestment (sample_env no_feed) W) db_100) = inr true /\
  fst (run (isReadyForInvestment (sample_env no_feed) W) db_099) = inr false /\
  (sum_roundups (records_of W db_big) == 1)%Q /\
  (1002 <= List.length (records_of W db_big))%nat /\
  fst (run (isReadyForInvestment (sample_env no_feed) W) db_big) = inr false.
Proof.
  split; [| split; [| repeat split; vm_compute; reflexivity]].
  - eexists. unfold run. rewrite getTotalRoundup_value, isReadyForInvestment_value.
    split; [reflexivity | split; reflexivity].
  - intro H. unfold run. rewrite isReadyForInvestment_value, H. reflexivity.
Qed.

(** C7 (as stated): the two old entries are left out of the total. *)
Lemma getTotalRoundup_counterexample :
  toFixed2 (sum_roundups (records_of W db_big)) == 1 /\
  fst (run (getTotalRoundup (sample_env no_feed) W) db_big) = inr 0%Q.
Proof. split; vm_compute; reflexivity. Qed.

(** C7 (amended): [getTotalRoundup] returns 0 when the read of the
    wallet's entries fails; otherwise it returns the 2-decimal rounding of
    the binary64 sum, added in list order, of the first 1000 entries of a
    newest-first ordering of the wallet's entries (older ones are left
    out); it changes nothing.  When the wallet has at most 1000 entries
    that sum covers all of them. *)
Theorem getTotalRoundup_all_entries (env : Env) (w : string) (d : DB) :
  (read_fails env = true -> run (getTotalRoundup env w) d = (inr 0%Q, (d, []))) /\
  (read_fails env = false ->
   exists l, Permutation l (records_of w d) /\ Sorted date_desc l /\
     run (getTotalRoundup env w) d = (inr (toFixed2 (sum_roundups (firstn 1000 l))), (d, [])) /\
     ((List.length (records_of w d) <= 1000)%nat -> firstn 1000 l = l)).
Proof.
  split; intro Hr; unfold run; rewrite getTotalRoundup_value, Hr; [reflexivity |].
  exists (sort_desc (records_of w d)).
  split; [apply sort_desc_perm |]. split; [apply sort_desc_sorted |].
  split; [reflexivity |].
  intro Hlen. apply firstn_all2.
  rewrite (Permutation_length (sort_desc_perm _)). exact Hlen.
Qed.

Lemma getTotalRoundup_all_entries_witness :
  run (getTotalRoundup failing_env W) db_100 = (inr 0%Q, (db_100, [])) /\
  exists l, Permutation l (records_of W db_100) /\ Sorted date_desc l /\
    run (getTotalRoundup (sample_env no_feed) W) db_100
      = (inr (toFixed2 (sum_roundups (firstn 1000 l))), (db_100, [])) /\
    ((List.length (records_of W db_100) <= 1000)%nat -> firstn 1000 l = l).
Proof.
  split.
  - apply (proj1 (getTotalRoundup_all_entries failing_env W db_100)). reflexivity.
  - apply (proj2 (getTotalRoundup_all_entries (sample_env no_feed) W db_100)). reflexivity.
Defined.

(** C10: when the read of a wallet's entries fails, [getTotalRoundup]
    returns 0 without raising, the same result as for a wallet with no
    entries whose read succeeds, and [isReadyForInvestment] returns
    [false]; neither writes anything. *)
Theorem getTotalRoundup_read_failure (env env' : Env) (w : string) (d d' : DB) :
  read_fails env = true ->
  read_fails env' = false ->
  records_of w d' = [] ->
  run (getTotalRoundup env w) d = (inr 0%Q, (d, [])) /\
  run (getTotalRoundup env' w) d' = (inr 0%Q, (d', [])) /\
  run (isReadyForInvestment env w) d = (inr false, (d, [])).
Proof.
  intros Hf Hok Hnone. unfold run.
  rewrite !getTotalRoundup_value, isReadyForInvestment_value, Hf, Hok. cbn [fst].
  rewrite Hnone. repeat split; reflexivity.
Qed.

Lemma getTotalRoundup_read_failure_witness :
  run (getTotalRoundup failing_env W) db_100 = (inr 0%Q, (db_100, [])) /\
  run (getTotalRoundup (sample_env no_feed) W) empty_db = (inr 0%Q, (empty_db, [])) /\
  run (isReadyForInvestment failing_env W) db_100 = (inr false, (db_100, [])).
Proof.
  apply getTotalRoundup_read_failure; reflexivity.
Defined.

(* ------------------------------------------------------------------ *)
(** ** Wallet initialization *)

Lemma truthy_nonempty (a : string) : a <> "" -> truthy (Some a) = true.
Proof.
  intro H. unfold truthy. destruct (String.eqb_spec a ""); [contradiction | reflexivity].
Qed.

Lemma getWalletTracking_run (a : string) (d : DB) :
  getWalletTracking a (d, [])
  = (inr (find (fun t => String.eqb (wallet_address t) a) (wallet_tracking d)), (d, [])).
Proof. reflexivity. Qed.

(** C8 (as stated): a 32-character address that is not base58 is not
    rejected; the wallet is initialized. *)
Lemma POST_init_counterexample :
  is_base58 ZEROS = false /\ String.length ZEROS = 32%nat /\
  fst (run (POST_init (sample_env (feed_of 100 histS)) (Some ZEROS)) empty_db)
    = inr (InitOk ZEROS (Some "S1") true).
Proof. split; [| split]; vm_compute; reflexivity. Qed.

(** C8 (amended): [POST /api/wallet/init] answers "invalid address" for a
    missing or empty address and "invalid address format" for an address
    whose length is outside 32..44 (the characters are not checked); on a
    wallet that already has a baseline [b] it answers [b] with
    [isNewWallet = false], writing and fetching nothing; on a wallet
    without baseline whose transfer source has no transaction (or fails)
    it answers "no transactions" after one fetch, writing nothing. *)
Theorem POST_init_spec (env : Env) (a : string) (d : DB) :
  run (POST_init env None) d = (inr InitInvalidAddress, (d, [])) /\
  run (POST_init env (Some "")) d = (inr InitInvalidAddress, (d, [])) /\
  (a <> "" -> (String.length a < 32 \/ 44 < String.length a)%nat ->
   run (POST_init env (Some a)) d = (inr InitInvalidAddressFormat, (d, []))) /\
  (forall b, (32 <= String.length a <= 44)%nat ->
   baseline_of (find (fun t => String.eqb (wallet_address t) a) (wallet_tracking d)) = Some b ->
   run (POST_init env (Some a)) d = (inr (InitOk a (Some b) false), (d, []))) /\
  ((32 <= String.length a <= 44)%nat ->
   baseline_of (find (fun t => String.eqb (wallet_address t) a) (wallet_tracking d)) = None ->
   (forall l, helius env a None = Some l -> l = []) ->
   run (POST_init env (Some a)) d = (inr InitNoTransactions, (d, [EvFetch a None]))).
Proof.
  split; [reflexivity |]. split; [reflexivity |]. split; [| split].
  - intros Hne Hlen. unfold run, POST_init. apply catch_inr.
    rewrite (truthy_nonempty a Hne). change (negb true) with false. cbv iota.
    assert (Hl : (Nat.ltb (String.length a) 32 || Nat.ltb 44 (String.length a)) = true).
    { apply orb_true_iff. destruct Hlen; [left | right]; apply Nat.ltb_lt; exact H. }
    rewrite Hl. reflexivity.
  - intros b Hlen Hb.
    assert (Hne : a <> "") by (intros ->; simpl in Hlen; lia).
    assert (Hl : (Nat.ltb (String.length a) 32 || Nat.ltb 44 (String.length a)) = false).
    { apply orb_false_iff. split; apply Nat.ltb_ge; lia. }
    unfold run, POST_init. apply catch_inr.
    rewrite (truthy_nonempty a Hne). change (negb true) with false. cbv iota.
    rewrite Hl. cbv iota.
    rewrite (bind_inr _ _ _ _ _ (getWalletTracking_run a d)). cbv beta.
    destruct (find (fun t => String.eqb (wallet_address t) a) (wallet_tracking d))
      as [t |] eqn:Hf; [| discriminate Hb].
    rewrite Hb.
    apply find_some in Hf as [_ Heq]. apply String.eqb_eq in Heq.
    assert (Ht : last_tracked_tx t = Some b).
    { unfold baseline_of in Hb. destruct (truthy (last_tracked_tx t)); [exact Hb | discriminate Hb]. }
    unfold ret. rewrite Heq, Ht. reflexivity.
  - intros Hlen Hb Hh.
    assert (Hne : a <> "") by (intros ->; simpl in Hlen; lia).
    assert (Hl : (Nat.ltb (String.length a) 32 || Nat.ltb 44 (String.length a)) = false).
    { apply orb_false_iff. split; apply Nat.ltb_ge; lia. }
    assert (Hm : getMostRecentTransaction env a (d, []) = (inr None, (d, [EvFetch a None]))).
    { unfold getMostRecentTransaction, fetchTransactions, catch, bind, emit, ret, throw.
      cbn. destruct (helius env a None) as [l |] eqn:E; [rewrite (Hh l eq_refl) |]; reflexivity. }
    assert (Hc : catch (tx <- getMostRecentTransaction env a ;; ret (inr tx))
                       (fun e => ret (inl e)) (d, [])
                 = (inr (inr None), (d, [EvFetch a None]))).
    { apply catch_inr. rewrite (bind_inr _ _ _ _ _ Hm). reflexivity. }
    unfold run, POST_init. apply catch_inr.
    rewrite (truthy_nonempty a Hne). change (negb true) with false. cbv iota.
    rewrite Hl. cbv iota.
    rewrite (bind_inr _ _ _ _ _ (getWalletTracking_run a d)). cbv beta.
    rewrite Hb. cbv iota.
    rewrite (bind_inr _ _ _ _ _ Hc). reflexivity.
Qed.

Lemma POST_init_spec_witness :
  run (POST_init (sample_env no_feed) (Some "short")) empty_db
    = (inr InitInvalidAddressFormat, (empty_db, [])) /\
  run (POST_init env3 (Some W)) db3 = (inr (InitOk W (Some "T0") false), (db3, [])) /\
  run (POST_init (sample_env no_feed) (Some W)) empty_db
    = (inr InitNoTransactions, (empty_db, [EvFetch W None])).
Proof.
  split; [| split].
  - destruct (POST_init_spec (sample_env no_feed) "short" empty_db) as (_ & _ & H & _).
    apply H; [discriminate | left; apply Nat.ltb_lt; reflexivity].
  - destruct (POST_init_spec env3 W db3) as (_ & _ & _ & H & _).
    apply H; [split; apply Nat.leb_le; reflexivity | reflexivity].
  - destruct (POST_init_spec (sample_env no_feed) W empty_db) as (_ & _ & _ & _ & H).
    apply H; [split; apply Nat.leb_le; reflexivity | reflexivity |].
    intros l Hl. unfold sample_env, no_feed in Hl. simpl in Hl. congruence.
Defined.

(* ------------------------------------------------------------------ *)
(** ** Persistence errors while recording *)

Lemma storeRoundup_count (env : Env) (w : string) (c : RoundupCalculation) (st : St)
    (id : string) :
  insert_fails env id = true ->
  count_tx id (fst (snd (storeRoundup env w c st))) = count_tx id (fst st).
Proof.
  intro Hid. destruct st as [d evs].
  unfold storeRoundup, insert_roundup_row, bind, emit, get_db, put_db, ret, throw; simpl.
  destruct (insert_fails env (c_transaction_id c)) eqn:E; [reflexivity |].
  destruct (has_transaction (c_transaction_id c) (roundup_records d)); [reflexivity |].
  unfold count_tx. simpl. rewrite count_tx_app. simpl.
  destruct (String.eqb_spec (c_transaction_id c) id) as [Heq | _]; [congruence | lia].
Qed.

Lemma storeRoundup_fails (env : Env) (w : string) (c : RoundupCalculation) (st : St) :
  insert_fails env (c_transaction_id c) = true ->
  fst (storeRoundup env w c st) = inl PersistenceError.
Proof.
  intro H. destruct st as [d evs].
  unfold storeRoundup, insert_roundup_row, bind, emit, get_db, throw; simpl.
  rewrite H. reflexivity.
Qed.

Lemma processTransaction_id (env : Env) (p : ParsedHeliusTransaction) (c : RoundupCalculation) :
  processTransaction env p = Some c -> c_transaction_id c = p_signature p.
Proof.
  unfold processTransaction.
  destruct (Qeq_bool _ 0); intro H; [discriminate H | injection H as <-; reflexivity].
Qed.

(** A transfer that cannot be recorded: its asset is unpriced or the
    insertion of its entry hits a persistence error. *)
Definition not_recordable (env : Env) (p : ParsedHeliusTransaction) : bool :=
  unpriced env p || insert_fails env (p_signature p).

Lemma process_loop_failures (env : Env) (w : string) (txs : list ParsedHeliusTransaction) :
  forall stored skipped st,
  exists stored' skipped' st',
    process_loop env w txs stored skipped st = (inr (stored', skipped'), st') /\
    (stored' + skipped' = stored + skipped + List.length txs)%nat /\
    (skipped + List.length (filter (not_recordable env) txs) <= skipped')%nat /\
    (forall id, insert_fails env id = true -> count_tx id (fst st') = count_tx id (fst st)).
Proof.
  induction txs as [| tx rest IH]; intros stored skipped st.
  - exists stored, skipped, st. simpl. repeat split; lia.
  - simpl process_loop. unfold bind at 1, catch at 1.
    destruct (processTransaction env tx) as [calc |] eqn:Hp.
    + assert (Hu : unpriced env tx = false).
      { destruct (unpriced env tx) eqn:E; [| reflexivity].
        apply processTransaction_None in E. congruence. }
      pose proof (processTransaction_id env tx calc Hp) as Hid.
      pose proof (storeRoundup_count env w calc st) as Hcnt.
      pose proof (storeRoundup_fails env w calc st) as Hfail.
      unfold bind at 1.
      destruct (storeRoundup env w calc st) as [[e | [r |]] st1] eqn:Hs;
        simpl in Hcnt, Hfail |- *; unfold not_recordable at 1; rewrite Hu; simpl.
      * destruct (IH stored (S skipped) st1) as (s' & k' & st' & H1 & H2 & H3 & H4).
        exists s', k', st'. unfold ret. simpl. rewrite H1.
        repeat split; [lia | destruct (insert_fails env (p_signature tx)); simpl; lia |].
        intros id Hid'. rewrite (H4 id Hid'). exact (Hcnt id Hid').
      * assert (Hok : insert_fails env (p_signature tx) = false).
        { rewrite <- Hid. destruct (insert_fails env (c_transaction_id calc)); [| reflexivity].
          specialize (Hfail eq_refl). discriminate Hfail. }
        rewrite Hok.
        destruct (IH (S stored) skipped st1) as (s' & k' & st' & H1 & H2 & H3 & H4).
        exists s', k', st'. unfold ret. simpl. rewrite H1.
        repeat split; [lia | lia |].
        intros id Hid'. rewrite (H4 id Hid'). exact (Hcnt id Hid').
      * destruct (IH stored (S skipped) st1) as (s' & k' & st' & H1 & H2 & H3 & H4).
        exists s', k', st'. unfold ret. simpl. rewrite H1.
        repeat split; [lia | destruct (insert_fails env (p_signature tx)); simpl; lia |].
        intros id Hid'. rewrite (H4 id Hid'). exact (Hcnt id Hid').
    + assert (Hu : unpriced env tx = true) by (apply processTransaction_None; exact Hp).
      simpl. unfold not_recordable at 1. rewrite Hu. simpl.
      destruct (IH stored (S skipped) st) as (s' & k' & st' & H1 & H2 & H3 & H4).
      exists s', k', st'. unfold ret. rewrite H1. repeat split; try lia. exact H4.
Qed.

(** C9 (as stated): with a persistence error on inserting the entry of
    [T2], the tracking run still succeeds: processed 3, stored 2, skipped
    1, no entry for [T2], and the baseline advanced past [T2] to [T3]. *)
Lemma track_persistence_error_counterexample :
  match fst (run (POST_track env9 10 (Some W) 100 false) db3) with
  | inr (TrackOk processed stored skipped _ newBaseline _) =>
      processed = 3%nat /\ stored = 2%nat /\ skipped = 1%nat /\ newBaseline = "T3"
  | _ => False
  end /\
  count_tx "T2" (fst (snd (run (POST_track env9 10 (Some W) 100 false) db3))) = 0%nat /\
  stored_baseline W (fst (snd (run (POST_track env9 10 (Some W) 100 false) db3))) = Some "T3".
Proof. vm_compute. repeat split. Qed.

(** C9 (amended): [processAndStoreTransactions] never fails: a
    persistence error other than a duplicate key while recording a
    transfer's entry is caught inside the loop, the transfer is counted as
    skipped (as are unpriced ones), the batch goes on, and no entry is
    written for a transfer whose insertion fails.  In a
    [POST /api/roundups/track] run on an initialized wallet whose fetch
    returns a non-empty batch, such an error does not fail the run either
    (the update of the tracking row succeeding): the run answers success
    with [processed] the batch size, the failed transfers among the
    skipped ones, still no entry for them, and the baseline set to the
    signature of the batch's first (newest) transfer. *)
Theorem processAndStore_persistence_error_skipped :
  (forall (env : Env) (w : string) (txs : list ParsedHeliusTransaction) (st : St),
   exists r st',
     processAndStoreTransactions env w txs st = (inr r, st') /\
     res_total r = List.length txs /\
     (res_stored r + res_skipped r = List.length txs)%nat /\
     (List.length (filter (not_recordable env) txs) <= res_skipped r)%nat /\
     (forall id, insert_fails env id = true -> count_tx id (fst st') = count_tx id (fst st))) /\
  (forall (env : Env) (fuel : nat) (a : string) (limit : nat) (ignoreBaseline : bool)
     (d : DB) (b : string) (mostRecentTx : ParsedHeliusTransaction)
     (rest : list ParsedHeliusTransaction) (s1 : St),
   truthy (Some a) = true ->
   baseline_of (find (fun t => String.eqb (wallet_address t) a) (wallet_tracking d)) = Some b ->
   fetchOutgoingTransactions env fuel a limit (if ignoreBaseline then None else Some b) (d, [])
     = (inr (mostRecentTx :: rest), s1) ->
   exists stored skipped totalRoundup s2,
     run (POST_track env fuel (Some a) limit ignoreBaseline) d
       = (inr (TrackOk (List.length (mostRecentTx :: rest)) stored skipped totalRoundup
                       (p_signature mostRecentTx) (Some (Qle_bool 1 totalRoundup))), s2) /\
     (stored + skipped = List.length (mostRecentTx :: rest))%nat /\
     (List.length (filter (not_recordable env) (mostRecentTx :: rest)) <= skipped)%nat /\
     (forall id, insert_fails env id = true -> count_tx id (fst s2) = count_tx id d) /\
     stored_baseline a (fst s2) = Some (p_signature mostRecentTx)).
Proof.
  split.
  - intros env w txs st.
    destruct (process_loop_failures env w txs 0 0 st) as (s' & k' & st' & H1 & H2 & H3 & H4).
    exists {| res_stored := s'; res_skipped := k'; res_total := List.length txs |}, st'.
    unfold processAndStoreTransactions. rewrite (bind_inr _ _ _ _ _ H1).
    simpl. repeat split; [lia | lia | exact H4].
  - intros env fuel a limit ignoreBaseline d b mostRecentTx rest s1 Ha Hb Hfetch.
    assert (Hd1 : fst s1 = d).
    { pose proof (fetch_loop_db env fuel a limit (if ignoreBaseline then None else Some b)
                    [] None (negb (truthy (if ignoreBaseline then None else Some b))) (d, []))
        as H.
      unfold fetchOutgoingTransactions in Hfetch. rewrite Hfetch in H. exact H. }
    destruct (find (fun t => String.eqb (wallet_address t) a) (wallet_tracking d))
      as [t |] eqn:Hfind; [| discriminate].
    destruct (process_loop_spec env a (mostRecentTx :: rest) 0 0 s1)
      as (stored & skipped & st2 & Hloop & _ & _ & Htr).
    destruct (process_loop_failures env a (mostRecentTx :: rest) 0 0 s1)
      as (stored' & skipped' & st2' & Hloop' & Hsum & Hskip & Hcnt).
    rewrite Hloop in Hloop'. injection Hloop' as <- <- <-.
    set (st3 := (update_tracking env a (p_signature mostRecentTx) (fst st2),
                 (snd st2 ++ [EvWriteTracking a (p_signature mostRecentTx)])%list)).
    destruct (getTotalRoundup_pure env a st3) as [total Htot].
    exists stored, skipped, total, st3.
    split; [| split; [simpl List.length in *; lia | split; [simpl List.length in *; lia |]]].
    + assert (Hgw : getWalletTracking a (d, []) = (inr (Some t), (d, []))).
      { unfold getWalletTracking, bind, get_db, ret. simpl. rewrite Hfind. reflexivity. }
      assert (Hproc : processAndStoreTransactions env a (mostRecentTx :: rest) s1
                      = (inr {| res_stored := stored; res_skipped := skipped;
                                res_total := List.length (mostRecentTx :: rest) |}, st2)).
      { unfold processAndStoreTransactions. rewrite (bind_inr _ _ _ _ _ Hloop). reflexivity. }
      assert (Hupd : updateLastTracked env a (p_signature mostRecentTx) st2 = (inr tt, st3))
        by reflexivity.
      unfold run, POST_track. apply catch_inr.
      rewrite Ha. change (negb true) with false. cbv iota.
      rewrite (bind_inr _ _ _ _ _ Hgw). cbv beta. rewrite Hb. cbv iota.
      rewrite (bind_inr _ _ _ _ _ Hfetch). cbv beta iota.
      rewrite (bind_inr _ _ _ _ _ Hproc). cbv beta.
      rewrite (bind_inr _ _ _ _ _ Hupd). cbv beta.
      rewrite (bind_inr _ _ _ _ _ Htot). reflexivity.
    + split.
      * intros id Hid. change (count_tx id (fst st2) = count_tx id d).
        rewrite (Hcnt id Hid), Hd1. reflexivity.
      * simpl. apply (stored_baseline_update env a _ (fst st2) t).
        rewrite Htr. rewrite Hd1. exact Hfind.
Qed.

(** The spec's scenario with a persistence error on [T2]: the batch and
    the tracking run both go on, [T2] gets no entry, and the baseline
    moves to [T3]. *)
Lemma processAndStore_persistence_error_skipped_witness :
  (exists r st',
    processAndStoreTransactions env9 W batch3 (db3, []) = (inr r, st') /\
    res_total r = List.length batch3 /\
    (res_stored r + res_skipped r = List.length batch3)%nat /\
    (List.length (filter (not_recordable env9) batch3) <= res_skipped r)%nat /\
    (forall id, insert_fails env9 id = true -> count_tx id (fst st') = count_tx id db3)) /\
  exists stored skipped total s2,
    run (POST_track env9 10 (Some W) 100 false) db3
      = (inr (TrackOk 3 stored skipped total "T3" (Some (Qle_bool 1 total))), s2) /\
    (stored + skipped = 3)%nat /\ (1 <= skipped)%nat /\
    count_tx "T2" (fst s2) = 0%nat /\ stored_baseline W (fst s2) = Some "T3".
Proof.
  split; [exact (proj1 processAndStore_persistence_error_skipped env9 W batch3 (db3, [])) |].
  assert (Hf : fetchOutgoingTransactions env9 10 W 100 (Some "T0") (db3, [])
               = (inr batch3, snd (fetchOutgoingTransactions env9 10 W 100 (Some "T0") (db3, []))))
    by (vm_compute; reflexivity).
  assert (Hn : List.length (filter (not_recordable env9) batch3) = 1%nat)
    by (vm_compute; reflexivity).
  unfold batch3 in Hf, Hn.
  destruct (proj2 processAndStore_persistence_error_skipped env9 10%nat W 100%nat false db3 "T0"
              _ _ _ eq_refl eq_refl Hf)
    as (stored & skipped & total & s2 & H1 & H2 & H3 & H4 & H5).
  rewrite Hn in H3.
  exists stored, skipped, total, s2.
  split; [exact H1 |]. split; [exact H2 |]. split; [exact H3 |].
  split; [rewrite (H4 "T2" eq_refl); vm_compute; reflexivity | exact H5].
Defined.

(* ================================================================== *)
(** * Further properties of the code *)

(** ** [getRoundups] and [GET /api/roundups/track] *)

Lemma getRoundups_ok (env : Env) (w : string) (limit : nat) (st : St) :
  read_fails env = false ->
  getRoundups env w limit st = (inr (firstn limit (sort_desc (records_of w (fst st)))), st).
Proof.
  intro H. unfold getRoundups. rewrite H. destruct st. reflexivity.
Qed.

(** [getRoundups(walletAddress, limit)] writes nothing; when the read
    fails it raises the error, otherwise it returns at most [limit]
    entries, every one a stored entry of that wallet, newest first; when
    the wallet has at most [limit] entries they are all returned. *)
Theorem getRoundups_newest_first (env : Env) (w : string) (limit : nat) (d : DB) :
  (read_fails env = true -> run (getRoundups env w limit) d = (inl PersistenceError, (d, []))) /\
  (read_fails env = false ->
   exists l, run (getRoundups env w limit) d = (inr l, (d, [])) /\
     (List.length l <= limit)%nat /\
     (forall r, In r l -> r_wallet_address r = w /\ In r (roundup_records d)) /\
     Sorted date_desc l /\
     ((List.length (records_of w d) <= limit)%nat -> Permutation l (records_of w d))).
Proof.
  split.
  - intro H. unfold run, getRoundups. rewrite H. reflexivity.
  - intro H. exists (firstn limit (sort_desc (records_of w d))).
    split; [unfold run; rewrite getRoundups_ok by exact H; reflexivity |].
    split; [apply firstn_le_length |].
    split; [| split; [apply Sorted_firstn, sort_desc_sorted |]].
    + intros r Hr. apply In_firstn in Hr.
      apply (Permutation_in _ (sort_desc_perm _)) in Hr.
      unfold records_of in Hr. apply filter_In in Hr as [Hin Heq].
      split; [apply String.eqb_eq; exact Heq | exact Hin].
    + intro Hlen. rewrite firstn_all2; [apply sort_desc_perm |].
      rewrite (Permutation_length (sort_desc_perm _)). exact Hlen.
Qed.

Lemma getRoundups_newest_first_witness :
  run (getRoundups failing_env W 10) db_100 = (inl PersistenceError, (db_100, [])) /\
  exists l, run (getRoundups (sample_env no_feed) W 1) db_100 = (inr l, (db_100, [])) /\
    (List.length l <= 1)%nat /\
    (forall r, In r l -> r_wallet_address r = W /\ In r (roundup_records db_100)) /\
    Sorted date_desc l /\
    ((List.length (records_of W db_100) <= 1)%nat -> Permutation l (records_of W db_100)).
Proof.
  split.
  - apply (proj1 (getRoundups_newest_first failing_env W 10 db_100)). reflexivity.
  - apply (proj2 (getRoundups_newest_first (sample_env no_feed) W 1 db_100)). reflexivity.
Defined.

(** [GET /api/roundups/track]: for a non-empty address it writes
    nothing; a failed read of the entries makes the whole request fail
    (although [getTotalRoundup] alone would hide it as 0); otherwise the
    response lists the newest [limit] entries with [count] their number,
    the total of the newest 1000, and a readiness flag equal to
    [totalRoundup >= 1]. *)
Theorem GET_track_consistent (env : Env) (a : string) (limit : nat) (d : DB) :
  a <> "" ->
  (read_fails env = true ->
   run (GET_track env (Some a) limit) d = (inr (RecordsError PersistenceError), (d, []))) /\
  (read_fails env = false ->
   exists records total,
     run (GET_track env (Some a) limit) d
       = (inr (RecordsOk records total (List.length records) (Qle_bool 1 total)), (d, [])) /\
     records = firstn limit (sort_desc (records_of a d)) /\
     total = toFixed2 (sum_roundups (firstn 1000 (sort_desc (records_of a d))))).
Proof.
  intro Hne. split; intro H; unfold run, GET_track, catch; rewrite (truthy_nonempty a Hne);
    change (negb true) with false; cbv iota.
  - assert (Hg : getRoundups env a limit (d, []) = (inl PersistenceError, (d, [])))
      by (unfold getRoundups; rewrite H; reflexivity).
    rewrite (bind_inl _ _ _ _ _ Hg). reflexivity.
  - eexists. eexists.
    rewrite (bind_inr _ _ _ _ _ (getRoundups_ok env a limit (d, []) H)).
    rewrite (bind_inr _ _ _ _ _ (getTotalRoundup_value env a (d, []))).
    rewrite (bind_inr _ _ _ _ _ (isReadyForInvestment_value env a (d, []))).
    rewrite H. split; [reflexivity | split; reflexivity].
Qed.

Lemma GET_track_consistent_witness :
  run (GET_track failing_env (Some W) 10) db_100
    = (inr (RecordsError PersistenceError), (db_100, [])) /\
  exists records total,
    run (GET_track (sample_env no_feed) (Some W) 10) db_100
      = (inr (RecordsOk records total (List.length records) (Qle_bool 1 total)), (db_100, [])) /\
    records = firstn 10 (sort_desc (records_of W db_100)) /\
    total = toFixed2 (sum_roundups (firstn 1000 (sort_desc (records_of W db_100)))).
Proof.
  split.
  - apply (proj1 (GET_track_consistent failing_env W 10 db_100 ltac:(discriminate))).
    reflexivity.
  - apply (proj2 (GET_track_consistent (sample_env no_feed) W 10 db_100 ltac:(discriminate))).
    reflexivity.
Defined.

(** ** What [processTransaction] computes *)

Lemma rne_div_nonneg (num den : Z) : 0 <= num -> 0 < den -> 0 <= rne_div num den.
Proof.
  intros Hn Hd. unfold rne_div.
  assert (0 <= num / den) by (apply Z.div_pos; lia).
  destruct (Z.compare (2 * (num mod den)) den); [destruct (Z.even (num / den)) |..]; lia.
Qed.

Lemma round64_nonneg (q : Q) : (0 <= q)%Q -> (0 <= round64 q)%Q.
Proof.
  destruct q as [n d]. unfold Qle; simpl. intros H0.
  unfold round64; simpl.
  destruct (Z.compare_spec n 0) as [Hn | Hn | Hn].
  - unfold Qle; simpl. lia.
  - lia.
  - unfold round_pos, round_at, scale, of_scaled.
    generalize (ulp_exp n (Z.pos d)); intros e.
    destruct (Z.leb_spec 0 e) as [He | He].
    + assert (0 < 2 ^ e) by (apply Z.pow_pos_nonneg; lia).
      assert (0 <= rne_div n (Z.pos d * 2 ^ e)) by (apply rne_div_nonneg; nia).
      generalize dependent (rne_div n (Z.pos d * 2 ^ e)); intros m Hm.
      unfold Qle, inject_Z; cbn [Qnum Qden]. nia.
    + assert (0 < 2 ^ (- e)) by (apply Z.pow_pos_nonneg; lia).
      assert (0 <= rne_div (n * 2 ^ (- e)) (Z.pos d)) by (apply rne_div_nonneg; nia).
      generalize dependent (rne_div (n * 2 ^ (- e)) (Z.pos d)); intros m Hm.
      unfold Qle; cbn [Qnum Qden]. lia.
Qed.

(** [parseFloat(x.toFixed(2))] keeps a value of [[0, 1]] in [[0, 1]]. *)
Lemma toFixed2_bounds (x : Q) : (0 <= x)%Q -> (x <= 1)%Q ->
  (0 <= toFixed2 x)%Q /\ (toFixed2 x <= 1)%Q.
Proof.
  intros H0 H1. unfold toFixed2.
  rewrite (proj2 (Qle_bool_iff 0 x) H0).
  rewrite Qabs_pos by exact H0.
  set (n := Qfloor (x * 100 + (1 # 2))).
  assert (Hlo : 0 <= n).
  { change 0 with (Qfloor 0). apply Qfloor_resp_le. lra. }
  assert (Hhi : n <= 100).
  { pose proof (Qfloor_le (x * 100 + (1 # 2))) as Hf. fold n in Hf.
    assert (Hq : (inject_Z n < inject_Z 101)%Q) by (unfold inject_Z at 2; lra).
    rewrite <- Zlt_Qlt in Hq. lia. }
  split.
  - apply round64_nonneg. unfold Qle; simpl. lia.
  - apply round64_le_1; unfold Qle; simpl; lia.
Qed.

Lemma processTransaction_range (env : Env) (p : ParsedHeliusTransaction)
    (c : RoundupCalculation) :
  processTransaction env p = Some c ->
  (0 <= c_round_up_value c)%Q /\ (c_round_up_value c <= 1)%Q.
Proof.
  unfold processTransaction.
  destruct (Qeq_bool (getTokenPrice env (token p) (tokenMint p)) 0); [discriminate |].
  intro H. injection H as <-. cbn [c_round_up_value].
  apply toFixed2_bounds; [apply calculateRoundup_nonneg | apply calculateRoundup_le_1].
Qed.

(** [processTransaction(transaction)] returning a calculation: the price
    of the asset is not 0, the calculation carries the transfer's
    signature, timestamp and amount, and the stored round-up (after
    [parseFloat(toFixed(2))]) lies in [[0, 1]]. *)
Theorem processTransaction_roundup_bounds (env : Env) (p : ParsedHeliusTransaction)
    (c : RoundupCalculation) :
  processTransaction env p = Some c ->
  ~ (getTokenPrice env (token p) (tokenMint p) == 0)%Q /\
  c_transaction_id c = p_signature p /\
  c_transaction_date c = p_timestamp p /\
  c_token_amount c = amount p /\
  (0 <= c_round_up_value c)%Q /\ (c_round_up_value c <= 1)%Q.
Proof.
  intro H. pose proof (processTransaction_range env p c H) as Hr.
  unfold processTransaction in H.
  destruct (Qeq_bool (getTokenPrice env (token p) (tokenMint p)) 0) eqn:E; [discriminate H |].
  injection H as <-. cbn [c_transaction_id c_transaction_date c_token_amount].
  split; [| split; [reflexivity | split; [reflexivity | split; [reflexivity | exact Hr]]]].
  intro Hq. apply Qeq_bool_iff in Hq. congruence.
Qed.

Lemma processTransaction_roundup_bounds_witness :
  processTransaction (sample_env no_feed) parsed_T1 = Some calc_T1 /\
  ~ (getTokenPrice (sample_env no_feed) (token parsed_T1) (tokenMint parsed_T1) == 0)%Q /\
  c_transaction_id calc_T1 = p_signature parsed_T1 /\
  c_transaction_date calc_T1 = p_timestamp parsed_T1 /\
  c_token_amount calc_T1 = amount parsed_T1 /\
  (0 <= c_round_up_value calc_T1)%Q /\ (c_round_up_value calc_T1 <= 1)%Q.
Proof.
  split; [vm_compute; reflexivity |].
  apply (processTransaction_roundup_bounds (sample_env no_feed) parsed_T1 calc_T1).
  vm_compute. reflexivity.
Defined.

(** ** [storeRoundup] and [processAndStoreTransactions] *)

Lemma storeRoundup_records (env : Env) (w : string) (c : RoundupCalculation) (st : St) :
  match storeRoundup env w c st with
  | (inr (Some r), st1) =>
      r = row_of w c /\
      roundup_records (fst st1) = (roundup_records (fst st) ++ [r])%list /\
      has_transaction (c_transaction_id c) (roundup_records (fst st)) = false
  | (_, st1) => roundup_records (fst st1) = roundup_records (fst st)
  end.
Proof.
  destruct st as [d evs].
  unfold storeRoundup, insert_roundup_row, bind, emit, get_db, put_db, ret, throw; simpl.
  destruct (insert_fails env (c_transaction_id c)); [reflexivity |].
  destruct (has_transaction (c_transaction_id c) (roundup_records d)) eqn:E; [reflexivity |].
  simpl. split; [reflexivity | split; [reflexivity | reflexivity]].
Qed.

Lemma records_of_app (w : string) (d d' : DB) (r : RoundupRecord) :
  roundup_records d' = (roundup_records d ++ [r])%list ->
  records_of w d' = (records_of w d ++
                     (if String.eqb (r_wallet_address r) w then [r] else []))%list.
Proof.
  intro H. unfold records_of. rewrite H, filter_app. simpl.
  destruct (String.eqb (r_wallet_address r) w); reflexivity.
Qed.

(** [storeRoundup(walletAddress, calculation)] returning an entry is an
    insertion that can be read back: the entry is the row built from the
    calculation, it is appended to the wallet's entries, the entries of
    other wallets and the baselines are unchanged, and its transfer id
    goes from no entry to exactly one. *)
Theorem storeRoundup_roundtrip (env : Env) (w : string) (c : RoundupCalculation)
    (st st' : St) (r : RoundupRecord) :
  storeRoundup env w c st = (inr (Some r), st') ->
  r = row_of w c /\
  records_of w (fst st') = (records_of w (fst st) ++ [r])%list /\
  (forall w', w' <> w -> records_of w' (fst st') = records_of w' (fst st)) /\
  wallet_tracking (fst st') = wallet_tracking (fst st) /\
  count_tx (c_transaction_id c) (fst st) = 0%nat /\
  count_tx (c_transaction_id c) (fst st') = 1%nat.
Proof.
  intro Hs.
  pose proof (storeRoundup_records env w c st) as Hr. rewrite Hs in Hr.
  destruct Hr as (-> & Happ & Hnew).
  pose proof (storeRoundup_tracking env w c st) as Ht. rewrite Hs in Ht.
  assert (H0 : count_tx (c_transaction_id c) (fst st) = 0%nat).
  { unfold count_tx. rewrite has_transaction_count in Hnew.
    apply negb_false_iff, Nat.eqb_eq in Hnew. exact Hnew. }
  repeat split.
  - rewrite (records_of_app w _ _ _ Happ). simpl. rewrite String.eqb_refl. reflexivity.
  - intros w' Hw'. rewrite (records_of_app w' _ _ _ Happ). simpl.
    destruct (String.eqb_spec w w'); [congruence |]. apply app_nil_r.
  - exact Ht.
  - exact H0.
  - unfold count_tx in *. rewrite Happ, count_tx_app. simpl.
    rewrite String.eqb_refl, H0. reflexivity.
Qed.

Lemma storeRoundup_roundtrip_witness :
  let c := sample_calc "T9" (lit 35 100) in
  let r := row_of W c in
  let st' := snd (storeRoundup (sample_env no_feed) W c (db_100, [])) in
  r = row_of W c /\
  records_of W (fst st') = (records_of W db_100 ++ [r])%list /\
  (forall w', w' <> W -> records_of w' (fst st') = records_of w' db_100) /\
  wallet_tracking (fst st') = wallet_tracking db_100 /\
  count_tx (c_transaction_id c) db_100 = 0%nat /\
  count_tx (c_transaction_id c) (fst st') = 1%nat.
Proof.
  intros c r st'.
  apply (storeRoundup_roundtrip (sample_env no_feed) W c (db_100, [])).
  vm_compute. reflexivity.
Defined.

Lemma process_loop_records (env : Env) (w : string) (txs : list ParsedHeliusTransaction) :
  forall stored skipped st stored' skipped' st',
  process_loop env w txs stored skipped st = (inr (stored', skipped'), st') ->
  exists added,
    roundup_records (fst st') = (roundup_records (fst st) ++ added)%list /\
    (List.length added + stored = stored')%nat /\
    (forall r, In r added ->
       r_wallet_address r = w /\ In (transaction_id r) (map p_signature txs) /\
       (0 <= round_up_value r)%Q /\ (round_up_value r <= 1)%Q).
Proof.
  induction txs as [| tx rest IH]; intros stored skipped st stored' skipped' st' Hrun.
  - simpl in Hrun. injection Hrun as <- <- <-. exists []. rewrite app_nil_r.
    split; [reflexivity | split; [reflexivity | intros x []]].
  - simpl process_loop in Hrun. unfold bind at 1, catch at 1 in Hrun.
    destruct (processTransaction env tx) as [calc |] eqn:Hp.
    + pose proof (storeRoundup_records env w calc st) as Hr.
      pose proof (processTransaction_id env tx calc Hp) as Hid.
      pose proof (processTransaction_range env tx calc Hp) as Hrange.
      unfold bind at 1 in Hrun.
      destruct (storeRoundup env w calc st) as [[e | [r |]] st1] eqn:Hs.
      * destruct (IH _ _ _ _ _ _ Hrun) as (added & H1 & H2 & H3). cbn [fst snd] in H2.
        exists added. rewrite H1, Hr. split; [reflexivity | split; [lia |]].
        intros x Hx. destruct (H3 x Hx) as [Ha [Hb Hc]]. split; [exact Ha | split; [right; exact Hb | exact Hc]].
      * destruct Hr as (-> & Happ & _).
        destruct (IH _ _ _ _ _ _ Hrun) as (added & H1 & H2 & H3). cbn [fst snd] in H2.
        exists (row_of w calc :: added). rewrite H1, Happ, <- app_assoc.
        split; [reflexivity | split; [simpl; lia |]].
        intros x [<- | Hx].
        -- split; [reflexivity | split; [left; simpl; symmetry; exact Hid | exact Hrange]].
        -- destruct (H3 x Hx) as [Ha [Hb Hc]]. split; [exact Ha | split; [right; exact Hb | exact Hc]].
      * destruct (IH _ _ _ _ _ _ Hrun) as (added & H1 & H2 & H3). cbn [fst snd] in H2.
        exists added. rewrite H1, Hr. split; [reflexivity | split; [lia |]].
        intros x Hx. destruct (H3 x Hx) as [Ha [Hb Hc]]. split; [exact Ha | split; [right; exact Hb | exact Hc]].
    + destruct (IH _ _ _ _ _ _ Hrun) as (added & H1 & H2 & H3). cbn [fst snd] in H2.
      exists added. split; [exact H1 | split; [lia |]].
      intros x Hx. destruct (H3 x Hx) as [Ha [Hb Hc]]. split; [exact Ha | split; [right; exact Hb | exact Hc]].
Qed.

(** [processAndStoreTransactions(walletAddress, transactions)]: the
    [stored] count is exactly the number of entries added to
    [roundup_records]; they are appended after the existing ones, belong
    to the wallet, carry the signature of a transfer of the batch and a
    round-up in [[0, 1]], and the baselines are untouched. *)
Theorem processAndStore_stored_count (env : Env) (w : string)
    (txs : list ParsedHeliusTransaction) (st : St) :
  exists r st' added,
    processAndStoreTransactions env w txs st = (inr r, st') /\
    roundup_records (fst st') = (roundup_records (fst st) ++ added)%list /\
    List.length added = res_stored r /\
    (forall x, In x added ->
       r_wallet_address x = w /\ In (transaction_id x) (map p_signature txs) /\
       (0 <= round_up_value x)%Q /\ (round_up_value x <= 1)%Q) /\
    wallet_tracking (fst st') = wallet_tracking (fst st).
Proof.
  destruct (process_loop_spec env w txs 0 0 st) as (s' & k' & st' & H1 & _ & _ & H4).
  destruct (process_loop_records env w txs 0 0 st s' k' st' H1) as (added & A1 & A2 & A3).
  exists {| res_stored := s'; res_skipped := k'; res_total := List.length txs |}, st', added.
  unfold processAndStoreTransactions. rewrite (bind_inr _ _ _ _ _ H1).
  split; [reflexivity | split; [exact A1 | split; [simpl; lia | split; [exact A3 | exact H4]]]].
Qed.

(** ** [parseTransaction] *)

Ltac eqb_cases :=
  repeat match goal with
         | |- context [String.eqb ?x ?y] => destruct (String.eqb_spec x y)
         | H : context [String.eqb ?x ?y] |- _ => destruct (String.eqb_spec x y)
         end.

(** A transfer returned by [parseTransaction] is priced either at the SOL
    price (token ["SOL"]) or at 1 (["USDC"] or ["USDT"], 6 decimals):
    [getTokenPrice] never reaches the per-mint price for it. *)
Theorem parsed_price_sol_or_stable (env : Env) (tx : HeliusTransaction) (a : string)
    (p : ParsedHeliusTransaction) :
  parseTransaction tx a = Some p ->
  (token p = "SOL" /\ getTokenPrice env (token p) (tokenMint p) = sol_price env) \/
  ((token p = "USDC" \/ token p = "USDT") /\ tokenDecimals p = 6 /\
   getTokenPrice env (token p) (tokenMint p) = 1%Q).
Proof.
  unfold parseTransaction, classify.
  destruct (nativeTransfers tx) as [| nt ns]; destruct (tokenTransfers tx) as [| t ts];
    eqb_cases; simpl; intro H; try discriminate H; injection H as <-; simpl;
    unfold getTokenPrice; simpl; auto.
Qed.

(** A token transfer of a mint other than the two USDC mints and the USDT
    mint is labelled ["SOL"] with 9 decimals, keeps the mint and the token
    amount, and is priced at the SOL price. *)
Theorem parse_unknown_mint_as_SOL (env : Env) (tx : HeliusTransaction) (a : string)
    (t : TokenTransfer) (ts : list TokenTransfer) (p : ParsedHeliusTransaction) :
  tokenTransfers tx = t :: ts ->
  tt_mint t <> USDC_MINT_MAINNET -> tt_mint t <> USDC_MINT_DEVNET -> tt_mint t <> USDT_MINT ->
  parseTransaction tx a = Some p ->
  token p = "SOL" /\ tokenDecimals p = 9 /\ tokenMint p = Some (tt_mint t) /\
  amount p = tt_tokenAmount t /\ getTokenPrice env (token p) (tokenMint p) = sol_price env.
Proof.
  intros Ht H1 H2 H3. unfold parseTransaction, classify. rewrite Ht.
  destruct (String.eqb_spec (tt_mint t) USDC_MINT_MAINNET); [contradiction |].
  destruct (String.eqb_spec (tt_mint t) USDC_MINT_DEVNET); [contradiction |].
  destruct (String.eqb_spec (tt_mint t) USDT_MINT); [contradiction |].
  destruct (nativeTransfers tx) as [| nt ns]; eqb_cases; simpl;
    intro H; try discriminate H; injection H as <-; simpl; auto.
Qed.

(** When the transaction has a token transfer, the first one decides the
    addresses, the amount and the mint of the parsed transfer; it is
    returned when the wallet sends it, or when the wallet is not its
    receiver and sends the first native transfer (the parsed transfer's
    [fromAddress] is then another account). *)
Theorem parse_token_leg (tx : HeliusTransaction) (a : string)
    (t : TokenTransfer) (ts : list TokenTransfer) :
  tokenTransfers tx = t :: ts ->
  (forall p, parseTransaction tx a = Some p ->
     fromAddress p = tt_fromUserAccount t /\ toAddress p = tt_toUserAccount t /\
     amount p = tt_tokenAmount t /\ tokenMint p = Some (tt_mint t)) /\
  (parseTransaction tx a <> None <->
     tt_fromUserAccount t = a \/
     (tt_toUserAccount t <> a /\
      exists n ns, nativeTransfers tx = n :: ns /\ nt_fromUserAccount n = a)).
Proof.
  intros Ht. unfold parseTransaction, classify. rewrite Ht.
  split.
  - intros p. destruct (nativeTransfers tx) as [| nt ns];
      eqb_cases; simpl; intro H; try discriminate H; injection H as <-; simpl; auto.
  - destruct (nativeTransfers tx) as [| nt ns]; eqb_cases; simpl;
      split; intro H; try congruence;
      try (destruct H as [H | (H & n' & ns' & Hn & Hf)]; congruence);
      try (right; split; [assumption | exists nt, ns; split; [reflexivity | assumption]]);
      try (left; assumption).
Qed.

(** Without token transfers, a transaction is returned exactly when the
    wallet sends its first native transfer; the amount is the lamports
    divided by [1e9], in ["SOL"], without mint, 9 decimals. *)
Theorem parse_native_only (tx : HeliusTransaction) (a : string) :
  tokenTransfers tx = [] ->
  (parseTransaction tx a <> None <->
     exists n ns, nativeTransfers tx = n :: ns /\ nt_fromUserAccount n = a) /\
  (forall p n ns, parseTransaction tx a = Some p -> nativeTransfers tx = n :: ns ->
     fromAddress p = a /\ toAddress p = nt_toUserAccount n /\
     amount p = fdiv (nt_amount n) (inject_Z 1000000000) /\
     token p = "SOL" /\ tokenMint p = None /\ tokenDecimals p = 9).
Proof.
  intros Ht. unfold parseTransaction, classify. rewrite Ht.
  split.
  - destruct (nativeTransfers tx) as [| nt ns]; eqb_cases; simpl;
      split; intro H; try congruence;
      try (destruct H as (n' & ns' & Hn & Hf); try discriminate Hn;
           injection Hn as <- <-; contradiction);
      exists nt, ns; split; [reflexivity | assumption].
  - intros p n ns. destruct (nativeTransfers tx) as [| n' ns']; [discriminate 2 |].
    intros H Hn. injection Hn as <- <-. revert H.
    eqb_cases; simpl; intro H; try discriminate H; injection H as <-; simpl; repeat split; auto.
Qed.

Lemma parsed_price_sol_or_stable_witness :
  parseTransaction unknown_tx W = Some parsed_unknown /\
  ((token parsed_unknown = "SOL" /\
    getTokenPrice (sample_env no_feed) (token parsed_unknown) (tokenMint parsed_unknown)
    = sol_price (sample_env no_feed)) \/
   ((token parsed_unknown = "USDC" \/ token parsed_unknown = "USDT") /\
    tokenDecimals parsed_unknown = 6 /\
    getTokenPrice (sample_env no_feed) (token parsed_unknown) (tokenMint parsed_unknown) = 1%Q)).
Proof.
  split; [vm_compute; reflexivity |].
  apply (parsed_price_sol_or_stable (sample_env no_feed) unknown_tx W parsed_unknown).
  vm_compute. reflexivity.
Defined.

Lemma parse_unknown_mint_as_SOL_witness :
  parseTransaction unknown_tx W = Some parsed_unknown /\
  token parsed_unknown = "SOL" /\ tokenDecimals parsed_unknown = 9 /\
  tokenMint parsed_unknown = Some UNKNOWN_MINT /\ amount parsed_unknown = lit 5 1 /\
  getTokenPrice (sample_env no_feed) (token parsed_unknown) (tokenMint parsed_unknown)
  = sol_price (sample_env no_feed).
Proof.
  split; [vm_compute; reflexivity |].
  apply (parse_unknown_mint_as_SOL (sample_env no_feed) unknown_tx W
           {| tt_fromUserAccount := W; tt_toUserAccount := OTHER;
              tt_tokenAmount := lit 5 1; tt_mint := UNKNOWN_MINT |} [] parsed_unknown).
  - reflexivity.
  - apply String.eqb_neq. reflexivity.
  - apply String.eqb_neq. reflexivity.
  - apply String.eqb_neq. reflexivity.
  - vm_compute. reflexivity.
Defined.

Lemma parse_token_leg_witness :
  parseTransaction mixed_tx W = Some parsed_mixed /\
  fromAddress parsed_mixed = OTHER /\ toAddress parsed_mixed = THIRD /\
  amount parsed_mixed = lit 40 1 /\ tokenMint parsed_mixed = Some USDC_MINT_MAINNET.
Proof.
  split; [vm_compute; reflexivity |].
  apply (proj1 (parse_token_leg mixed_tx W
                  {| tt_fromUserAccount := OTHER; tt_toUserAccount := THIRD;
                     tt_tokenAmount := lit 40 1; tt_mint := USDC_MINT_MAINNET |} []
                  eq_refl) parsed_mixed).
  vm_compute. reflexivity.
Defined.

Lemma parse_native_only_witness :
  parseTransaction (sol_tx "N1" 1700000700 W OTHER 2500000000) W = Some parsed_native /\
  fromAddress parsed_native = W /\ toAddress parsed_native = OTHER /\
  amount parsed_native = fdiv (inject_Z 2500000000) (inject_Z 1000000000) /\
  token parsed_native = "SOL" /\ tokenMint parsed_native = None /\
  tokenDecimals parsed_native = 9.
Proof.
  split; [vm_compute; reflexivity |].
  apply (proj2 (parse_native_only (sol_tx "N1" 1700000700 W OTHER 2500000000) W eq_refl)
           parsed_native
           {| nt_fromUserAccount := W; nt_toUserAccount := OTHER;
              nt_amount := inject_Z 2500000000 |} []).
  - vm_compute. reflexivity.
  - reflexivity.
Defined.

(** ** [fetchOutgoingTransactions] *)

Lemma fetchTransactions_len (env : Env) (a : string) (k : nat) (b : option string)
    (st st' : St) (page : list HeliusTransaction) :
  fetchTransactions env a k b st = (inr page, st') -> (List.length page <= k)%nat.
Proof.
  destruct st as [d evs].
  unfold fetchTransactions, bind, emit, ret, throw. simpl.
  destruct (helius env a _) as [txs |]; [| discriminate].
  intro H. injection H as <- _. apply firstn_le_length.
Qed.

Lemma scan_page_len (a : string) (after : option string) (l : list HeliusTransaction) :
  forall found acc acc' found',
  scan_page a after l found acc = (acc', found') ->
  (List.length acc' <= List.length acc + List.length l)%nat.
Proof.
  induction l as [| tx l IH]; intros found acc acc' found' Hs; cbn [scan_page] in Hs.
  - injection Hs as <- _. lia.
  - destruct (matches_baseline after (signature tx)); [injection Hs as <- _; simpl; lia |].
    apply IH in Hs. cbn [List.length].
    destruct found; [lia |].
    destruct (parseTransaction tx a) as [p |]; [| lia].
    destruct (TxType_eqb (p_type p) sent); [| lia].
    rewrite length_app in Hs. simpl in Hs. lia.
Qed.

Lemma scan_page_found (a : string) (after : option string) (l : list HeliusTransaction) :
  truthy after = false ->
  forall acc, scan_page a after l true acc = (acc, true).
Proof.
  intros Ha. induction l as [| tx l IH]; intro acc; cbn [scan_page]; [reflexivity |].
  assert (Hm : matches_baseline after (signature tx) = false).
  { unfold matches_baseline. destruct after; [rewrite Ha; reflexivity | reflexivity]. }
  rewrite Hm. apply IH.
Qed.

Lemma fetch_loop_len (env : Env) (a : string) (limit : nat) (after : option string)
    (fuel : nat) :
  forall acc cb found st l st',
  (List.length acc <= limit)%nat ->
  fetch_loop env fuel a limit after acc cb found st = (inr l, st') ->
  (List.length l <= limit)%nat.
Proof.
  induction fuel as [| fuel IH]; intros acc cb found st l st' Hacc Hrun;
    [discriminate Hrun |].
  cbn [fetch_loop] in Hrun.
  destruct (Nat.ltb_spec (List.length acc) limit) as [Hlt |];
    [| injection Hrun as <- _; exact Hacc].
  destruct (fetchTransactions env a (Nat.min 100 (limit - List.length acc)) cb st)
    as [[e | page] st1] eqn:Hf.
  - rewrite (bind_inl _ _ _ _ _ Hf) in Hrun. discriminate Hrun.
  - rewrite (bind_inr _ _ _ _ _ Hf) in Hrun. cbv beta in Hrun.
    pose proof (fetchTransactions_len _ _ _ _ _ _ _ Hf) as Hp.
    destruct page as [| tx txs]; [injection Hrun as <- _; exact Hacc |].
    destruct (scan_page a after (tx :: txs) found acc) as [acc' found'] eqn:Hs.
    pose proof (scan_page_len _ _ _ _ _ _ _ Hs) as Hl.
    assert (Hacc' : (List.length acc' <= limit)%nat) by lia.
    destruct found'; [injection Hrun as <- _; exact Hacc' |].
    destruct (negb (truthy (last_signature (tx :: txs))));
      [injection Hrun as <- _; exact Hacc' |].
    exact (IH _ _ _ _ _ _ Hacc' Hrun).
Qed.

(** [fetchOutgoingTransactions] never returns more than [limit] transfers. *)
Theorem fetchOutgoing_at_most_limit (env : Env) (fuel : nat) (a : string) (limit : nat)
    (after : option string) (st st' : St) (l : list ParsedHeliusTransaction) :
  fetchOutgoingTransactions env fuel a limit after st = (inr l, st') ->
  (List.length l <= limit)%nat.
Proof.
  unfold fetchOutgoingTransactions. apply fetch_loop_len. simpl. lia.
Qed.

Lemma fetchOutgoing_no_baseline_state (env : Env) (fuel : nat) (a : string) (limit : nat)
    (after : option string) (d : DB) (evs : list Event) :
  truthy after = false ->
  fetchOutgoingTransactions env (S fuel) a limit after (d, evs) =
  if Nat.eqb limit 0 then (inr [], (d, evs))
  else match helius env a None with
       | None => (inl HeliusError, (d, (evs ++ [EvFetch a None])%list))
       | Some _ => (inr [], (d, (evs ++ [EvFetch a None])%list))
       end.
Proof.
  intros Ha. unfold fetchOutgoingTransactions. rewrite Ha. cbn [negb fetch_loop].
  destruct limit as [| k]; [reflexivity |].
  change (Nat.ltb (List.length (@nil ParsedHeliusTransaction)) (S k)) with true.
  cbv iota. cbn [Nat.eqb].
  unfold bind at 1, fetchTransactions, bind, emit, ret, throw. cbn [truthy fst snd].
  destruct (helius env a None) as [txs |]; [| reflexivity].
  cbn [Datatypes.length].
  destruct (firstn (Nat.min 100 (S k - 0)) txs) as [| tx txs'] eqn:E; [reflexivity |].
  rewrite (scan_page_found a after (tx :: txs') Ha []). reflexivity.
Qed.

(** Without a (truthy) baseline signature, [fetchOutgoingTransactions]
    returns no transfer at all: [foundBaseline] starts [true], so no
    transaction of the first page is parsed and the loop stops after it. *)
Theorem fetchOutgoing_no_baseline_empty (env : Env) (fuel : nat) (a : string) (limit : nat)
    (after : option string) (d : DB) :
  truthy after = false ->
  run (fetchOutgoingTransactions env (S fuel) a limit after) d =
  if Nat.eqb limit 0 then (inr [], (d, []))
  else match helius env a None with
       | None => (inl HeliusError, (d, [EvFetch a None]))
       | Some _ => (inr [], (d, [EvFetch a None]))
       end.
Proof.
  intros Ha. unfold run. rewrite (fetchOutgoing_no_baseline_state env fuel a limit after d [] Ha).
  reflexivity.
Qed.

(** [POST /api/roundups/track] with [ignoreBaseline = true] on an
    initialized wallet records nothing: the fetch without a baseline
    returns no transfer, so the answer is [processed = stored = skipped = 0]
    with the unchanged baseline (or the fetch error), and the database is
    unchanged. *)
Theorem track_ignoreBaseline_finds_nothing (env : Env) (fuel : nat) (a : string)
    (limit : nat) (d : DB) (b : string) :
  a <> "" ->
  baseline_of (find (fun t => String.eqb (wallet_address t) a) (wallet_tracking d)) = Some b ->
  exists total,
  fst (run (getTotalRoundup env a) d) = inr total /\
  run (POST_track env (S fuel) (Some a) limit true) d =
  (if Nat.eqb limit 0 then (inr (TrackOk 0 0 0 total b None), (d, []))
   else match helius env a None with
        | None => (inr (TrackError HeliusError), (d, [EvFetch a None]))
        | Some _ => (inr (TrackOk 0 0 0 total b None), (d, [EvFetch a None]))
        end).
Proof.
  intros Hne Hb.
  destruct (getTotalRoundup_pure env a (d, [])) as [total Ht].
  exists total. split; [unfold run; rewrite Ht; reflexivity |].
  assert (Hf := fetchOutgoing_no_baseline_state env fuel a limit None d [] eq_refl).
  unfold run, POST_track, catch.
  rewrite (truthy_nonempty a Hne). change (negb true) with false. cbv iota.
  rewrite (bind_inr _ _ _ _ _ (getWalletTracking_run a d)). cbv beta.
  rewrite Hb. cbv iota zeta.
  destruct limit as [| k].
  - rewrite (bind_inr _ _ _ _ _ Hf). cbv beta iota.
    rewrite (bind_inr _ _ _ _ _ Ht). reflexivity.
  - cbn [Nat.eqb] in Hf |- *.
    destruct (helius env a None) as [txs |].
    + rewrite (bind_inr _ _ _ _ _ Hf). cbv beta iota.
      destruct (getTotalRoundup_pure env a (d, [EvFetch a None])) as [total' Ht'].
      assert (total' = total) as ->.
      { unfold getTotalRoundup, getRoundups, catch, bind, ret, throw, get_db in Ht, Ht'.
        destruct (read_fails env); simpl in Ht, Ht'; congruence. }
      rewrite (bind_inr _ _ _ _ _ Ht'). reflexivity.
    + rewrite (bind_inl _ _ _ _ _ Hf). reflexivity.
Qed.

Lemma fetchOutgoing_at_most_limit_witness :
  fetchOutgoingTransactions env3 10 W 2 (Some "T0") (db3, []) = (inr outL, snd runL) /\
  List.length batch3 = 3%nat /\ (List.length outL <= 2)%nat.
Proof.
  split; [vm_compute; reflexivity |]. split; [vm_compute; reflexivity |].
  apply (fetchOutgoing_at_most_limit env3 10 W 2 (Some "T0") (db3, []) (snd runL) outL).
  vm_compute. reflexivity.
Defined.

Lemma fetchOutgoing_no_baseline_empty_witness :
  run (fetchOutgoingTransactions env3 10 W 100 None) db3 = (inr [], (db3, [EvFetch W None])).
Proof.
  rewrite (fetchOutgoing_no_baseline_empty env3 9 W 100 None db3 ltac:(reflexivity)).
  reflexivity.
Defined.

Lemma track_ignoreBaseline_finds_nothing_witness :
  exists total,
  fst (run (getTotalRoundup env3 W) db3) = inr total /\
  run (POST_track env3 10 (Some W) 100 true) db3
  = (inr (TrackOk 0 0 0 total "T0" None), (db3, [EvFetch W None])).
Proof.
  destruct (track_ignoreBaseline_finds_nothing env3 9 W 100 db3 "T0"
              ltac:(discriminate) ltac:(reflexivity)) as [total [H1 H2]].
  exists total. split; [exact H1 | exact H2].
Defined.

(** ** [BaselineTracker] *)

Lemma find_app {A} (f : A -> bool) (l1 l2 : list A) :
  find f (l1 ++ l2) = match find f l1 with Some x => Some x | None => find f l2 end.
Proof.
  induction l1 as [| x l1 IH]; simpl; [reflexivity |].
  destruct (f x); [reflexivity | exact IH].
Qed.

(** Looking up wallet [a'] in the table after [update_tracking] on [a]. *)
Lemma find_update_tracking (env : Env) (a s a' : string) (d : DB) :
  find (fun t => String.eqb (wallet_address t) a') (wallet_tracking (update_tracking env a s d))
  = option_map (fun t => if String.eqb (wallet_address t) a
                         then {| wallet_address := wallet_address t;
                                 last_tracked_tx := Some s;
                                 last_tracked_at := Some (now env) |}
                         else t)
               (find (fun t => String.eqb (wallet_address t) a') (wallet_tracking d)).
Proof.
  unfold update_tracking; simpl.
  induction (wallet_tracking d) as [| t l IH]; simpl; [reflexivity |].
  destruct (String.eqb (wallet_address t) a) eqn:Ea; simpl;
    destruct (String.eqb (wallet_address t) a'); simpl; rewrite ?Ea;
    first [reflexivity | exact IH].
Qed.

Lemma find_filter_other (a a' : string) (l : list WalletTracking) :
  a' <> a ->
  find (fun t => String.eqb (wallet_address t) a')
       (filter (fun t => negb (String.eqb (wallet_address t) a)) l)
  = find (fun t => String.eqb (wallet_address t) a') l.
Proof.
  intros Hne. induction l as [| t l IH]; simpl; [reflexivity |].
  destruct (String.eqb_spec (wallet_address t) a) as [Ha | Ha]; simpl.
  - destruct (String.eqb_spec (wallet_address t) a'); [congruence | exact IH].
  - destruct (String.eqb (wallet_address t) a'); [reflexivity | exact IH].
Qed.

Lemma find_filter_same (a : string) (l : list WalletTracking) :
  find (fun t => String.eqb (wallet_address t) a)
       (filter (fun t => negb (String.eqb (wallet_address t) a)) l) = None.
Proof.
  induction l as [| t l IH]; simpl; [reflexivity |].
  destruct (String.eqb (wallet_address t) a) eqn:E; simpl; [exact IH |].
  rewrite E. exact IH.
Qed.

(** What [setBaseline] does to the tables, from any state. *)
Lemma setBaseline_effect (env : Env) (a s : string) (d : DB) (evs : list Event) :
  exists d',
  setBaseline env a s (d, evs) =
    (inr {| wallet_address := a; last_tracked_tx := Some s; last_tracked_at := Some (now env) |},
     (d', (evs ++ [EvWriteTracking a s])%list)) /\
  roundup_records d' = roundup_records d /\
  (exists t, find (fun t => String.eqb (wallet_address t) a) (wallet_tracking d') = Some t /\
             wallet_address t = a /\ last_tracked_tx t = Some s /\
             last_tracked_at t = Some (now env)) /\
  (forall a', a' <> a ->
     find (fun t => String.eqb (wallet_address t) a') (wallet_tracking d')
     = find (fun t => String.eqb (wallet_address t) a') (wallet_tracking d)).
Proof.
  unfold setBaseline, getWalletTracking, bind, emit, get_db, put_db, ret. cbn [fst snd].
  destruct (find (fun t => String.eqb (wallet_address t) a) (wallet_tracking d))
    as [t0 |] eqn:Hf.
  - eexists. split; [reflexivity |]. split; [reflexivity |]. split.
    + rewrite find_update_tracking, Hf. cbn [option_map].
      apply find_some in Hf as [_ Heq]. rewrite Heq.
      eexists. split; [reflexivity |]. apply String.eqb_eq in Heq.
      simpl. split; [exact Heq | split; reflexivity].
    + intros a' Hne. rewrite find_update_tracking.
      destruct (find (fun t => String.eqb (wallet_address t) a') (wallet_tracking d))
        as [t1 |] eqn:Hf1; [| reflexivity].
      apply find_some in Hf1 as [_ Heq]. apply String.eqb_eq in Heq.
      cbn [option_map]. destruct (String.eqb_spec (wallet_address t1) a); [congruence |].
      reflexivity.
  - eexists. split; [reflexivity |]. split; [reflexivity |]. split.
    + cbn [wallet_tracking]. rewrite find_app, Hf. simpl.
      rewrite String.eqb_refl. eexists. split; [reflexivity |].
      simpl. split; [reflexivity | split; reflexivity].
    + intros a' Hne. cbn [wallet_tracking]. rewrite find_app.
      destruct (find (fun t => String.eqb (wallet_address t) a') (wallet_tracking d));
        [reflexivity |].
      simpl. destruct (String.eqb_spec a a'); [congruence | reflexivity].
Qed.

Lemma getBaseline_run (a : string) (d : DB) :
  run (getBaseline a) d
  = (inr (baseline_of (find (fun t => String.eqb (wallet_address t) a) (wallet_tracking d))),
     (d, [])).
Proof. reflexivity. Qed.

Lemma isWalletInitialized_run (a : string) (d : DB) :
  run (isWalletInitialized a) d
  = (inr (match find (fun t => String.eqb (wallet_address t) a) (wallet_tracking d) with
          | Some t => match last_tracked_tx t with Some _ => true | None => false end
          | None => false
          end), (d, [])).
Proof. reflexivity. Qed.

(** After [setBaseline(a, s)] the wallet has the row [(a, s, now)], the
    round-up ledger and every other wallet's row are unchanged, the
    wallet counts as initialized and [getBaseline] returns [s] (when [s]
    is not empty). *)
Theorem setBaseline_roundtrip (env : Env) (a s : string) (d : DB) :
  exists d',
  run (setBaseline env a s) d =
    (inr {| wallet_address := a; last_tracked_tx := Some s; last_tracked_at := Some (now env) |},
     (d', [EvWriteTracking a s])) /\
  roundup_records d' = roundup_records d /\
  (forall a', a' <> a ->
     find (fun t => String.eqb (wallet_address t) a') (wallet_tracking d')
     = find (fun t => String.eqb (wallet_address t) a') (wallet_tracking d)) /\
  fst (run (isWalletInitialized a) d') = inr true /\
  (s <> "" -> fst (run (getBaseline a) d') = inr (Some s)).
Proof.
  destruct (setBaseline_effect env a s d []) as (d' & Hrun & Hrec & (t & Hf & _ & Hl & _) & Hother).
  exists d'. split; [exact Hrun |]. split; [exact Hrec |]. split; [exact Hother |].
  rewrite isWalletInitialized_run, getBaseline_run, Hf, Hl.
  split; [reflexivity |].
  intros Hne. unfold baseline_of. rewrite Hl, (truthy_nonempty s Hne). reflexivity.
Qed.

(** [updateLastTracked(a, s)] never creates a row: on a wallet without
    one the table is unchanged (the wallet stays uninitialized); on a
    wallet with one its baseline becomes [s]. The ledger and the other
    wallets' rows are unchanged. *)
Theorem updateLastTracked_effect (env : Env) (a s : string) (d : DB) :
  exists d',
  run (updateLastTracked env a s) d = (inr tt, (d', [EvWriteTracking a s])) /\
  roundup_records d' = roundup_records d /\
  (forall a', a' <> a ->
     find (fun t => String.eqb (wallet_address t) a') (wallet_tracking d')
     = find (fun t => String.eqb (wallet_address t) a') (wallet_tracking d)) /\
  (find (fun t => String.eqb (wallet_address t) a) (wallet_tracking d) = None ->
   wallet_tracking d' = wallet_tracking d) /\
  (find (fun t => String.eqb (wallet_address t) a) (wallet_tracking d) <> None ->
   exists t, find (fun t => String.eqb (wallet_address t) a) (wallet_tracking d') = Some t /\
             last_tracked_tx t = Some s /\ last_tracked_at t = Some (now env)).
Proof.
  exists (update_tracking env a s d). split; [reflexivity |]. split; [reflexivity |]. split; [| split].
  - intros a' Hne. rewrite find_update_tracking.
    destruct (find (fun t => String.eqb (wallet_address t) a') (wallet_tracking d))
      as [t1 |] eqn:Hf1; [| reflexivity].
    apply find_some in Hf1 as [_ Heq]. apply String.eqb_eq in Heq.
    cbn [option_map]. destruct (String.eqb_spec (wallet_address t1) a); [congruence |].
    reflexivity.
  - unfold update_tracking. cbn [wallet_tracking].
    induction (wallet_tracking d) as [| t l IH]; intro Hf; [reflexivity |].
    simpl in Hf |- *. destruct (String.eqb (wallet_address t) a); [discriminate Hf |].
    f_equal. exact (IH Hf).
  - intros Hn. rewrite find_update_tracking.
    destruct (find (fun t => String.eqb (wallet_address t) a) (wallet_tracking d))
      as [t1 |] eqn:Hf1; [| contradiction].
    apply find_some in Hf1 as [_ Heq]. cbn [option_map]. rewrite Heq.
    eexists. split; [reflexivity | split; reflexivity].
Qed.

(** [getBaseline] and [isWalletInitialized] never fail and change nothing;
    a wallet with a baseline is initialized, and the two disagree exactly
    on a wallet whose stored baseline is the empty string (initialized,
    but with no baseline). *)
Theorem getBaseline_isWalletInitialized (a : string) (d : DB) :
  snd (run (getBaseline a) d) = (d, []) /\
  snd (run (isWalletInitialized a) d) = (d, []) /\
  (forall b, fst (run (getBaseline a) d) = inr (Some b) ->
     b <> "" /\ stored_baseline a d = Some b /\ fst (run (isWalletInitialized a) d) = inr true) /\
  (fst (run (isWalletInitialized a) d) = inr true /\ fst (run (getBaseline a) d) = inr None
   <-> stored_baseline a d = Some "").
Proof.
  rewrite getBaseline_run, isWalletInitialized_run. unfold stored_baseline, baseline_of.
  cbn [fst snd]. split; [reflexivity | split; [reflexivity |]].
  destruct (find (fun t => String.eqb (wallet_address t) a) (wallet_tracking d)) as [t |].
  - destruct (last_tracked_tx t) as [s |]; cbn [truthy].
    + destruct (String.eqb_spec s "") as [-> | Hs]; cbn [negb].
      * split; [intros b Hb; discriminate Hb |].
        split; [intros _; reflexivity | intros _; split; reflexivity].
      * split.
        -- intros b Hb. injection Hb as <-. split; [exact Hs | split; reflexivity].
        -- split; [intros [_ H]; discriminate H | intro H; injection H as H; contradiction].
    + split; [intros b Hb; discriminate Hb |].
      split; [intros [H _]; discriminate H | intro H; discriminate H].
  - split; [intros b Hb; discriminate Hb |].
    split; [intros [H _]; discriminate H | intro H; discriminate H].
Qed.

(** After [deleteWalletTracking(a)] the wallet has no row (so
    [GET /api/wallet/init] answers "not initialized" and
    [POST /api/roundups/track] refuses to track it), and the ledger and
    the other wallets' rows are unchanged. *)
Theorem deleteWalletTracking_effect (env : Env) (a : string) (d : DB) :
  a <> "" ->
  exists d',
  run (deleteWalletTracking a) d = (inr tt, (d', [])) /\
  find (fun t => String.eqb (wallet_address t) a) (wallet_tracking d') = None /\
  roundup_records d' = roundup_records d /\
  (forall a', a' <> a ->
     find (fun t => String.eqb (wallet_address t) a') (wallet_tracking d')
     = find (fun t => String.eqb (wallet_address t) a') (wallet_tracking d)) /\
  run (GET_init (Some a)) d' = (inr StatusNotInitialized, (d', [])) /\
  (forall fuel limit ignoreBaseline,
     run (POST_track env fuel (Some a) limit ignoreBaseline) d'
     = (inr TrackNotInitialized, (d', []))).
Proof.
  intros Hne.
  set (d' := {| wallet_tracking :=
                  filter (fun t => negb (String.eqb (wallet_address t) a)) (wallet_tracking d);
                roundup_records := roundup_records d |}).
  assert (Hf : find (fun t => String.eqb (wallet_address t) a) (wallet_tracking d') = None)
    by apply find_filter_same.
  exists d'. split; [reflexivity |]. split; [exact Hf |]. split; [reflexivity |]. split; [| split].
  - intros a' Ha'. apply find_filter_other. exact Ha'.
  - unfold run, GET_init. apply catch_inr.
    rewrite (truthy_nonempty a Hne). change (negb true) with false. cbv iota.
    rewrite (bind_inr _ _ _ _ _ (getWalletTracking_run a d')). rewrite Hf. reflexivity.
  - intros fuel limit ib. unfold run, POST_track. apply catch_inr.
    rewrite (truthy_nonempty a Hne). change (negb true) with false. cbv iota.
    rewrite (bind_inr _ _ _ _ _ (getWalletTracking_run a d')). rewrite Hf. reflexivity.
Qed.

Lemma deleteWalletTracking_effect_witness :
  exists d',
  run (deleteWalletTracking W) db3 = (inr tt, (d', [])) /\
  find (fun t => String.eqb (wallet_address t) W) (wallet_tracking d') = None /\
  roundup_records d' = roundup_records db3 /\
  (forall a', a' <> W ->
     find (fun t => String.eqb (wallet_address t) a') (wallet_tracking d')
     = find (fun t => String.eqb (wallet_address t) a') (wallet_tracking db3)) /\
  run (GET_init (Some W)) d' = (inr StatusNotInitialized, (d', [])) /\
  (forall fuel limit ignoreBaseline,
     run (POST_track env3 fuel (Some W) limit ignoreBaseline) d'
     = (inr TrackNotInitialized, (d', []))).
Proof. exact (deleteWalletTracking_effect env3 W db3 ltac:(discriminate)). Defined.

(** ** The routes and [BaselineTracker] together *)

(** [POST /api/roundups/track] answers "not initialized" exactly when
    [getBaseline] finds no baseline. *)
Theorem track_not_initialized_iff_no_baseline (env : Env) (fuel : nat) (a : string)
    (limit : nat) (ignoreBaseline : bool) (d : DB) :
  a <> "" ->
  (fst (run (POST_track env fuel (Some a) limit ignoreBaseline) d) = inr TrackNotInitialized
   <-> fst (run (getBaseline a) d) = inr None).
Proof.
  intros Hne. rewrite getBaseline_run. cbn [fst].
  unfold run, POST_track, catch.
  rewrite (truthy_nonempty a Hne). change (negb true) with false. cbv iota.
  rewrite (bind_inr _ _ _ _ _ (getWalletTracking_run a d)). cbv beta.
  destruct (baseline_of (find (fun t => String.eqb (wallet_address t) a) (wallet_tracking d)))
    as [b |] eqn:Hb; [| split; reflexivity].
  split; [| intro H; discriminate H].
  destruct (fetchOutgoingTransactions env fuel a limit (if ignoreBaseline then None else Some b) (d, []))
    as [[e | l] s1] eqn:Hf.
  - rewrite (bind_inl _ _ _ _ _ Hf). intro H; unfold ret in H; simpl in H; discriminate H.
  - rewrite (bind_inr _ _ _ _ _ Hf). cbv beta.
    destruct l as [| x xs].
    + destruct (getTotalRoundup_pure env a s1) as [total Ht].
      rewrite (bind_inr _ _ _ _ _ Ht). intro H; unfold ret in H; simpl in H; discriminate H.
    + destruct (processAndStoreTransactions env a (x :: xs) s1) as [[e | r] s2] eqn:Hp.
      * rewrite (bind_inl _ _ _ _ _ Hp). intro H; unfold ret in H; simpl in H; discriminate H.
      * rewrite (bind_inr _ _ _ _ _ Hp). cbv beta.
        destruct (updateLastTracked env a (p_signature x) s2) as [[e | u] s3] eqn:Hu.
        -- rewrite (bind_inl _ _ _ _ _ Hu). intro H; unfold ret in H; simpl in H; discriminate H.
        -- rewrite (bind_inr _ _ _ _ _ Hu). cbv beta.
           destruct (getTotalRoundup_pure env a s3) as [total Ht].
           rewrite (bind_inr _ _ _ _ _ Ht). intro H; unfold ret in H; simpl in H; discriminate H.
Qed.

Lemma track_not_initialized_iff_no_baseline_witness :
  (fst (run (POST_track env3 10 (Some W) 100 false) db_unset) = inr TrackNotInitialized
   <-> fst (run (getBaseline W) db_unset) = inr None) /\
  fst (run (getBaseline W) db_unset) = inr None.
Proof.
  split; [| reflexivity].
  exact (track_not_initialized_iff_no_baseline env3 10 W 100 false db_unset ltac:(discriminate)).
Defined.

Lemma mostRecent_db (env : Env) (a : string) (st : St) :
  fst (snd (catch (tx <- getMostRecentTransaction env a ;; ret (inr tx))
                  (fun e => ret (inl e)) st)) = fst st.
Proof.
  pose proof (fetchTransactions_db env a 1 None st) as Hf.
  unfold catch, getMostRecentTransaction, bind, ret, catch.
  destruct (fetchTransactions env a 1 None st) as [[e | txs] s1]; exact Hf.
Qed.

(** The row a successful [POST /api/wallet/init] leaves behind. *)
Lemma POST_init_ok_row (env : Env) (a a' : string) (lt : option string) (isNew : bool)
    (d d' : DB) (evs : list Event) :
  run (POST_init env (Some a)) d = (inr (InitOk a' lt isNew), (d', evs)) ->
  a <> "" /\ (32 <= String.length a <= 44)%nat /\ a' = a /\
  (isNew = true <-> find (fun t => String.eqb (wallet_address t) a) (wallet_tracking d) = None) /\
  roundup_records d' = roundup_records d /\
  exists t, find (fun t => String.eqb (wallet_address t) a) (wallet_tracking d') = Some t /\
            wallet_address t = a /\ last_tracked_tx t = lt /\ lt <> None.
Proof.
  intros H. unfold run, POST_init in H. unfold catch at 1 in H.
  destruct (String.eqb_spec a "") as [-> | Hne]; [discriminate H |].
  rewrite (truthy_nonempty a Hne) in H. change (negb true) with false in H. cbv iota in H.
  destruct (Nat.ltb (String.length a) 32 || Nat.ltb 44 (String.length a)) eqn:Hlen;
    [discriminate H |].
  apply orb_false_iff in Hlen. destruct Hlen as [Hl1 Hl2].
  apply Nat.ltb_ge in Hl1, Hl2.
  split; [exact Hne | split; [split; assumption |]].
  rewrite (bind_inr _ _ _ _ _ (getWalletTracking_run a d)) in H. cbv beta in H.
  pose proof (mostRecent_db env a (d, [])) as Hdb.
  destruct (find (fun t => String.eqb (wallet_address t) a) (wallet_tracking d))
    as [t |] eqn:Hf;
    [cbn [baseline_of] in H; destruct (truthy (last_tracked_tx t)) eqn:Ht | ].
  - destruct (last_tracked_tx t) as [b |] eqn:Hl; [| discriminate Ht].
    unfold ret in H. injection H as <- <- <- <- <-.
    apply find_some in Hf as Hf'. destruct Hf' as [_ Heq]. apply String.eqb_eq in Heq.
    split; [exact Heq |]. split; [split; discriminate |].
    split; [reflexivity |]. exists t. split; [exact Hf |]. split; [exact Heq |].
    split; [exact Hl | discriminate].
  - cbv iota in H.
    destruct (catch (tx <- getMostRecentTransaction env a ;; ret (inr tx))
                    (fun e => ret (inl e)) (d, [])) as [[e | mr] [d1 evs1]] eqn:Hm;
      cbn [fst snd] in Hdb; subst d1.
    + rewrite (bind_inl _ _ _ _ _ Hm) in H. discriminate H.
    + rewrite (bind_inr _ _ _ _ _ Hm) in H. cbv beta in H.
      destruct mr as [e | [tx |]]; [discriminate H | | discriminate H].
      destruct (setBaseline_effect env a (signature tx) d evs1)
        as (d2 & Hs & Hrec & (t2 & Hf2 & Hwa & Hl & _) & _).
      rewrite (bind_inr _ _ _ _ _ Hs) in H. unfold ret in H.
      cbn [wallet_address last_tracked_tx] in H.
      injection H as <- <- <- <- _.
      split; [reflexivity |]. split; [split; discriminate |].
      split; [exact Hrec |]. exists t2. split; [exact Hf2 |]. split; [exact Hwa |].
      split; [exact Hl | discriminate].
  - cbn [baseline_of] in H. cbv iota in H.
    destruct (catch (tx <- getMostRecentTransaction env a ;; ret (inr tx))
                    (fun e => ret (inl e)) (d, [])) as [[e | mr] [d1 evs1]] eqn:Hm;
      cbn [fst snd] in Hdb; subst d1.
    + rewrite (bind_inl _ _ _ _ _ Hm) in H. discriminate H.
    + rewrite (bind_inr _ _ _ _ _ Hm) in H. cbv beta in H.
      destruct mr as [e | [tx |]]; [discriminate H | | discriminate H].
      destruct (setBaseline_effect env a (signature tx) d evs1)
        as (d2 & Hs & Hrec & (t2 & Hf2 & Hwa & Hl & _) & _).
      rewrite (bind_inr _ _ _ _ _ Hs) in H. unfold ret in H.
      cbn [wallet_address last_tracked_tx] in H.
      injection H as <- <- <- <- _.
      split; [reflexivity |]. split; [split; reflexivity |].
      split; [exact Hrec |]. exists t2. split; [exact Hf2 |]. split; [exact Hwa |].
      split; [exact Hl | discriminate].
Qed.

(** After a successful [POST /api/wallet/init] the status route
    [GET /api/wallet/init] reports the same wallet and baseline, and a
    second [POST /api/wallet/init] (when the baseline is not empty)
    answers that baseline with [isNewWallet = false], writing nothing and
    making no call to the transfer source. [isNewWallet] is true exactly
    when the wallet had no row before, and the ledger is untouched. *)
Theorem POST_init_then_status (env : Env) (a a' : string) (lt : option string)
    (isNew : bool) (d d' : DB) (evs : list Event) :
  run (POST_init env (Some a)) d = (inr (InitOk a' lt isNew), (d', evs)) ->
  a' = a /\
  (isNew = true <-> find (fun t => String.eqb (wallet_address t) a) (wallet_tracking d) = None) /\
  roundup_records d' = roundup_records d /\
  run (GET_init (Some a)) d' = (inr (StatusOk a lt (truthy lt)), (d', [])) /\
  (truthy lt = true -> run (POST_init env (Some a)) d' = (inr (InitOk a lt false), (d', []))).
Proof.
  intros H.
  destruct (POST_init_ok_row env a a' lt isNew d d' evs H)
    as (Hne & [Hl1 Hl2] & Ha & Hnew & Hrec & t & Hf & Hwa & Hlt & _).
  split; [exact Ha |]. split; [exact Hnew |]. split; [exact Hrec |]. split.
  - unfold run, GET_init. apply catch_inr.
    rewrite (truthy_nonempty a Hne). change (negb true) with false. cbv iota.
    rewrite (bind_inr _ _ _ _ _ (getWalletTracking_run a d')). rewrite Hf.
    unfold ret. rewrite Hwa, Hlt. reflexivity.
  - intros Ht.
    assert (Hl : (Nat.ltb (String.length a) 32 || Nat.ltb 44 (String.length a)) = false).
    { apply orb_false_iff. split; apply Nat.ltb_ge; lia. }
    unfold run, POST_init. apply catch_inr.
    rewrite (truthy_nonempty a Hne). change (negb true) with false. cbv iota.
    rewrite Hl. cbv iota.
    rewrite (bind_inr _ _ _ _ _ (getWalletTracking_run a d')). cbv beta.
    rewrite Hf. cbn [baseline_of]. rewrite Hlt, Ht.
    destruct lt as [b |]; [| discriminate Ht].
    unfold ret. rewrite Hwa. reflexivity.
Qed.

Lemma POST_init_then_status_witness :
  let d' := fst (snd init_run) in
  run (POST_init (sample_env (feed_of 100 histS)) (Some W)) empty_db
    = (inr (InitOk W (Some "S1") true), (d', snd (snd init_run))) /\
  W = W /\
  (true = true <-> find (fun t => String.eqb (wallet_address t) W) (wallet_tracking empty_db) = None) /\
  roundup_records d' = roundup_records empty_db /\
  run (GET_init (Some W)) d' = (inr (StatusOk W (Some "S1") (truthy (Some "S1"))), (d', [])) /\
  (truthy (Some "S1") = true ->
   run (POST_init (sample_env (feed_of 100 histS)) (Some W)) d'
   = (inr (InitOk W (Some "S1") false), (d', []))).
Proof.
  intros d'. split; [vm_compute; reflexivity |].
  apply (POST_init_then_status (sample_env (feed_of 100 histS)) W W (Some "S1") true
           empty_db d' (snd (snd init_run))).
  vm_compute. reflexivity.
Defined.

(** ** [getHeliusService] *)

Lemma Network_eqb_eq (n m : Network) : Network_eqb n m = true <-> n = m.
Proof. destruct n, m; simpl; split; congruence. Qed.

Lemma getHeliusService_step (cluster_env key : option string) (na : option Network)
    (c : ServiceCache) :
  cache_ok c = true ->
  let target := match na with Some n => n | None => getCurrentNetwork cluster_env end in
  network (fst (getHeliusService cluster_env key na c)) = target /\
  heliusInstance (snd (getHeliusService cluster_env key na c))
    = Some (fst (getHeliusService cluster_env key na c)) /\
  currentNetworkCache (snd (getHeliusService cluster_env key na c)) = Some target.
Proof.
  intros Hok target. unfold getHeliusService. fold target.
  destruct (heliusInstance c) as [inst |] eqn:Hi;
    [destruct (currentNetworkCache c) as [n |] eqn:Hn |].
  - destruct (Network_eqb n target) eqn:E.
    + apply Network_eqb_eq in E. subst n.
      unfold cache_ok in Hok. rewrite Hi, Hn in Hok. apply Network_eqb_eq in Hok.
      cbn [fst snd]. split; [exact Hok | split; [exact Hi | exact Hn]].
    + cbn [fst snd]. split; [reflexivity | split; reflexivity].
  - cbn [fst snd]. split; [reflexivity | split; reflexivity].
  - cbn [fst snd]. split; [reflexivity | split; reflexivity].
Qed.

(** [getHeliusService(network)] returns a service for the requested
    network (or [getCurrentNetwork()] when none is given), keeps the cache
    consistent, returns the very same object on a repeated call with the
    same network, and builds a new object whenever the network differs
    from the cached one. *)
Theorem getHeliusService_cache (cluster_env key : option string) (na : option Network)
    (c : ServiceCache) :
  cache_ok c = true ->
  let target := match na with Some n => n | None => getCurrentNetwork cluster_env end in
  let '(svc, c') := getHeliusService cluster_env key na c in
  network svc = target /\
  cache_ok c' = true /\
  getHeliusService cluster_env key na c' = (svc, c') /\
  (forall n', n' <> target ->
     getHeliusService cluster_env key (Some n') c'
     = (newHeliusService (instances_built c') key key n',
        {| heliusInstance := Some (newHeliusService (instances_built c') key key n');
           currentNetworkCache := Some n';
           instances_built := S (instances_built c') |})).
Proof.
  intros Hok target.
  destruct (getHeliusService_step cluster_env key na c Hok) as (Hnet & Hinst & Hcache).
  fold target in Hnet, Hcache.
  destruct (getHeliusService cluster_env key na c) as [svc c'] eqn:E.
  cbn [fst snd] in Hnet, Hinst, Hcache.
  assert (Hok' : cache_ok c' = true).
  { unfold cache_ok. rewrite Hinst, Hcache. apply Network_eqb_eq. exact Hnet. }
  split; [exact Hnet |]. split; [exact Hok' |]. split.
  - unfold getHeliusService at 1. fold target. rewrite Hinst, Hcache.
    destruct target; reflexivity.
  - intros n' Hne. unfold getHeliusService. rewrite Hinst, Hcache.
    destruct target, n'; cbn [Network_eqb]; first [congruence | reflexivity].
Qed.

(** With no network argument, the service talks to
    [https://api.helius-rpc.com] when [NEXT_PUBLIC_SOLANA_CLUSTER] is
    unset, empty, [mainnet] or [mainnet-beta], and to
    [https://api-devnet.helius-rpc.com] for any other value. *)
Theorem getHeliusService_default_url (cluster_env key : option string) (c : ServiceCache) :
  cache_ok c = true ->
  getBaseUrl (fst (getHeliusService cluster_env key None c)) =
  (if match cluster_env with
      | None => true
      | Some s => String.eqb s "" || String.eqb s "mainnet" || String.eqb s "mainnet-beta"
      end
   then "https://api.helius-rpc.com" else "https://api-devnet.helius-rpc.com").
Proof.
  intros Hok.
  destruct (getHeliusService_step cluster_env key None c Hok) as (Hnet & _).
  unfold getBaseUrl. rewrite Hnet. unfold getCurrentNetwork, js_or, truthy.
  destruct cluster_env as [s |]; [| reflexivity].
  destruct (String.eqb_spec s "") as [-> | Hs]; [reflexivity |].
  cbn [negb orb].
  destruct (String.eqb_spec s "mainnet-beta"); destruct (String.eqb_spec s "mainnet");
    cbn [orb]; reflexivity.
Qed.

Lemma getHeliusService_cache_witness :
  let '(svc, c') := getHeliusService (Some "devnet") None None empty_cache in
  network svc = devnet /\
  cache_ok c' = true /\
  getHeliusService (Some "devnet") None None c' = (svc, c') /\
  (forall n', n' <> devnet ->
     getHeliusService (Some "devnet") None (Some n') c'
     = (newHeliusService (instances_built c') None None n',
        {| heliusInstance := Some (newHeliusService (instances_built c') None None n');
           currentNetworkCache := Some n';
           instances_built := S (instances_built c') |})).
Proof.
  exact (getHeliusService_cache (Some "devnet") None None empty_cache ltac:(reflexivity)).
Defined.

Lemma getHeliusService_default_url_witness :
  getBaseUrl (fst (getHeliusService (Some "testnet") None None empty_cache))
  = "https://api-devnet.helius-rpc.com".
Proof.
  exact (getHeliusService_default_url (Some "testnet") None empty_cache ltac:(reflexivity)).
Defined.
